(** * Honeypot VM pool and SSH relay helpers of
      [defense/tarpit_boxes/docker/honey_manager_paramiko.py]

    Shallow embedding of the Warm/Hot VM pool ([VMManager]), the
    [send_all] flush loop, the keystroke [CommandLogger], the deceptive
    [HoneypotServerInterface] authentication callbacks and
    [_resolve_backend_credentials].

    Modelling conventions:
    - [datetime.now()] is an input, a [Z] counting microseconds (the
      resolution of [datetime]); a [timedelta(minutes=m)] is [m * 60 * 10^6].
    - The hypervisor and the file system are an explicit environment
      [env]: the disks on the file system, the defined and the active
      libvirt domains (a domain handle is its name), and the stderr log.
    - The asyncio event loop runs one coroutine at a time; every pool
      operation is one atomic step of the state machine (its awaits on
      hypervisor I/O only touch [env]).  The task spawned by
      [asyncio.create_task(self.ensure_warm_vm())] is a later, separate
      [ensure_warm_vm] step. *)

From stdpp Require Import base gmap sets list strings.
From Stdlib Require Import ZArith Lia.

Open Scope Z_scope.

(* ================================================================== *)
(** ** Configuration constants *)

Definition MAX_HOT_VMS : nat := 1.
Definition PERSISTENCE_MINUTES : Z := 10.
Definition POOL_PATH : string := "/var/lib/libvirt/images/".

(** [timedelta(minutes=PERSISTENCE_MINUTES)] in microseconds. *)
Definition persistence_window : Z := PERSISTENCE_MINUTES * 60 * 1000000.

(* ================================================================== *)
(** ** Pool data model *)

(** The dict [{"dom", "ip", "id", "disk"}] stored in [self.warm_vm]. *)
Record vm_entry := mkVm {
  dom : string;    (* libvirt domain handle, "trap_<run_id>" *)
  ip : string;
  id : string;     (* run_id *)
  disk : string    (* overlay disk path *)
}.

(** A value of [self.hot_vms]: the same dict with ["last_seen"] added. *)
Record hot_entry := mkHot {
  vm : vm_entry;
  last_seen : Z
}.

Record pool := mkPool {
  warm_vm : option vm_entry;
  hot_vms : gmap string hot_entry   (* client_ip -> session *)
}.

Definition empty_pool : pool := mkPool None ∅.

(** Hypervisor and file system as seen by the manager. *)
Record env := mkEnv {
  disks : gset string;      (* files present on disk *)
  defined : gset string;    (* domains defined in libvirt *)
  active : gset string;     (* running domains *)
  log : list string;        (* log_print / print output, oldest first *)
  faulty : gset string      (* domains whose isActive() or destroy() raises *)
}.

Definition env_log (e : env) (msg : string) : env :=
  mkEnv (disks e) (defined e) (active e) (log e ++ [msg]) (faulty e).

(* ================================================================== *)
(** ** [VMManager.cleanup_vm_entry]

    [try: if dom.isActive(): dom.destroy(); print("[-] Destroyed VM")
    except Exception: pass], then [os.remove(disk)] when the file
    exists.  For a [faulty] domain [isActive()] or [destroy()] raises:
    the exception is swallowed and the domain keeps running. *)

Definition cleanup_vm_entry (d disk_path : string) (e : env) : env :=
  let e1 :=
    if decide (d ∈ faulty e) then e
    else if decide (d ∈ active e)
    then mkEnv (disks e) (defined e) (active e ∖ {[d]}) (log e ++ ["[-] Destroyed VM"])
               (faulty e)
    else e in
  if decide (disk_path ∈ disks e1)
  then mkEnv (disks e1 ∖ {[disk_path]}) (defined e1) (active e1) (log e1) (faulty e1)
  else e1.

(* ================================================================== *)
(** ** [VMManager.ensure_warm_vm]

    What the blocking provisioning ([_create_transient_vm] followed by
    [get_vm_ip]) does is an input: the step at which
    [_create_transient_vm] raises, or the result of [get_vm_ip]. *)

Inductive failure_point :=
  | FailQemuImg     (* subprocess.run(["qemu-img", "create", ...], check=True) *)
  | FailChmod       (* os.chmod(new_file, 0o644) after the overlay exists *)
  | FailLookup      (* self.conn.lookupByName(MASTER_VM) in _create_transient_vm *)
  | FailDefine      (* self.conn.defineXML(new_xml) *)
  | FailCreate.     (* new_dom.create() *)

Inductive provision_outcome :=
  | Raises (at_ : failure_point)
  | Boots (guest_ip : option string).  (* None: get_vm_ip timed out *)

Definition trap_name (run_id : string) : string := "trap_" +:+ run_id.
Definition overlay_path (run_id : string) : string :=
  POOL_PATH +:+ "trap_" +:+ run_id +:+ ".qcow2".

(** Environment after [_create_transient_vm] raised at [fp]: what was
    created before the failing call is left in place. *)
Definition partial_effect (run_id : string) (fp : failure_point) (e : env) : env :=
  let dsk := overlay_path run_id in
  match fp with
  | FailQemuImg => e
  | FailChmod | FailLookup | FailDefine =>
      mkEnv ({[dsk]} ∪ disks e) (defined e) (active e) (log e) (faulty e)
  | FailCreate =>
      mkEnv ({[dsk]} ∪ disks e) ({[trap_name run_id]} ∪ defined e) (active e) (log e)
            (faulty e)
  end.

(** Environment after a successful [_create_transient_vm]. *)
Definition booted_effect (run_id : string) (e : env) : env :=
  mkEnv ({[overlay_path run_id]} ∪ disks e) ({[trap_name run_id]} ∪ defined e)
        ({[trap_name run_id]} ∪ active e) (log e) (faulty e).

Definition ensure_warm_vm (run_id : string) (o : provision_outcome)
    (p : pool) (e : env) : pool * env :=
  if decide (MAX_HOT_VMS <= size (hot_vms p))%nat then
    (p, env_log e "[X] Max capacity reached. Not creating new Warm VM.")
  else
    match warm_vm p with
    | Some _ => (p, e)
    | None =>
        let e0 := env_log e "[*] Creating new Warm VM..." in
        match o with
        | Raises fp =>
            (p, env_log (partial_effect run_id fp e0) "[!] Error creating Warm VM")
        | Boots (Some g) =>
            let w := mkVm (trap_name run_id) g run_id (overlay_path run_id) in
            (mkPool (Some w) (hot_vms p),
             env_log (booted_effect run_id e0) ("[✓] Warm VM Ready: " +:+ g))
        | Boots None =>
            let e1 := env_log (booted_effect run_id e0)
                        "[!] Warm VM timed out getting IP. Destroying." in
            (p, cleanup_vm_entry (trap_name run_id) (overlay_path run_id) e1)
        end
    end.

(* ================================================================== *)
(** ** [VMManager.get_target_for_client]

    Returns the target IP (or [None]), the new pool, and whether a
    refill task [ensure_warm_vm] was spawned. *)

Definition get_target_for_client (now : Z) (client_ip : string) (p : pool)
    : option string * pool * bool :=
  match hot_vms p !! client_ip with
  | Some h =>
      (Some (ip (vm h)),
       mkPool (warm_vm p) (<[client_ip := mkHot (vm h) now]> (hot_vms p)),
       false)
  | None =>
      if decide (MAX_HOT_VMS <= size (hot_vms p))%nat then (None, p, false)
      else match warm_vm p with
           | Some target_vm =>
               (Some (ip target_vm),
                mkPool None (<[client_ip := mkHot target_vm now]> (hot_vms p)),
                true)
           | None => (None, p, true)
           end
  end.

(* ================================================================== *)
(** ** [VMManager.cleanup_expired_sessions] *)

Definition expired (now : Z) (h : hot_entry) : bool :=
  bool_decide (persistence_window < now - last_seen h).

(** The list comprehension building [to_remove]. *)
Definition to_remove (now : Z) (force : bool) (hv : gmap string hot_entry)
    : list string :=
  (map_to_list hv) ≫= (fun '(cip, h) => if force || expired now h then [cip] else []).

(** [for ip in to_remove: await self.cleanup_vm_entry(self.hot_vms[ip]);
    del self.hot_vms[ip]].  The keys of [to_remove] are distinct keys of
    [hot_vms], so the lookup always succeeds. *)
Fixpoint remove_sessions (ips : list string) (hv : gmap string hot_entry) (e : env)
    : gmap string hot_entry * env :=
  match ips with
  | [] => (hv, e)
  | cip :: rest =>
      match hv !! cip with
      | Some h =>
          remove_sessions rest (delete cip hv) (cleanup_vm_entry (dom (vm h)) (disk (vm h)) e)
      | None => remove_sessions rest hv e
      end
  end.

Definition cleanup_expired_sessions (now : Z) (force : bool) (p : pool) (e : env)
    : pool * env :=
  let '(hv, e') := remove_sessions (to_remove now force (hot_vms p)) (hot_vms p) e in
  (mkPool (warm_vm p) hv, e').

(* ================================================================== *)
(** ** The pool as a state machine

    Any call of the three pool operations, with any inputs (time, client
    address, run id and provisioning outcome), is a step. *)

Inductive pool_step : pool * env -> pool * env -> Prop :=
  | step_ensure run_id o p e :
      pool_step (p, e) (ensure_warm_vm run_id o p e)
  | step_get now cip p e r p' spawned :
      get_target_for_client now cip p = (r, p', spawned) ->
      pool_step (p, e) (p', e)
  | step_cleanup now force p e :
      pool_step (p, e) (cleanup_expired_sessions now force p e).

Inductive reachable : pool * env -> Prop :=
  | reach_init e : reachable (empty_pool, e)
  | reach_step s s' : reachable s -> pool_step s s' -> reachable s'.

(** Number of Warm instances: [self.warm_vm] is a single optional slot. *)
Definition warm_count (p : pool) : nat :=
  match warm_vm p with Some _ => 1 | None => 0 end.

Definition hot_count (p : pool) : nat := size (hot_vms p).

(** Inductive invariant: the hot cap holds, and a Warm instance only
    exists below the cap (it is created under that check). *)
Definition pool_inv (p : pool) : Prop :=
  (hot_count p <= MAX_HOT_VMS)%nat /\
  (warm_vm p <> None -> (hot_count p < MAX_HOT_VMS)%nat).

(* ================================================================== *)
(** ** [send_all]

    A send primitive is modelled by what it returns on its [k]-th call
    with the remaining [view]: [Some n] (it accepted [n] bytes, the first
    [n] of [view] reach the peer) or [None] (Paramiko's "all sent").  Like
    a recording test channel, the model returns whether [send_all] raised
    [EOFError], the bytes that reached the peer in order, and the values
    the send calls returned. *)

Inductive send_result := SendOk | SendEOFError.

Definition sender := nat -> list Byte.byte -> option nat.

(** [while view: sent = sender(view); ...; view = view[sent:]].  Each
    iteration that continues consumes at least one byte, so [length view]
    iterations bound the loop; [fuel] is that bound. *)
Fixpoint send_loop (fuel : nat) (f : sender) (k : nat) (view : list Byte.byte)
    : send_result * list Byte.byte * list (option nat) :=
  match view with
  | [] => (SendOk, [], [])
  | _ :: _ =>
      match fuel with
      | O => (SendOk, [], [])
      | S fuel' =>
          match f k view with
          | None => (SendOk, view, [None])                 (* break *)
          | Some O => (SendEOFError, [], [Some O])         (* raise EOFError *)
          | Some n =>
              let '(r, rest, calls) := send_loop fuel' f (S k) (drop n view) in
              (r, take n view ++ rest, Some n :: calls)
          end
      end
  end.

Definition send_all (f : sender) (data : list Byte.byte)
    : send_result * list Byte.byte * list (option nat) :=
  match data with
  | [] => (SendOk, [], [])
  | _ => send_loop (length data) f O data
  end.

(* ================================================================== *)
(** ** [CommandLogger]

    Text is a list of Unicode code points.  [payload.decode(errors="ignore")],
    [str.isprintable] and [strip_ansi_codes] are parameters: the logger is
    specified for every choice of them, and the concrete theorem below
    only uses what Python's versions do on ASCII. *)

Definition cps (s : string) : list Z :=
  map (fun a => Z.of_N (Ascii.N_of_ascii a)) (String.list_ascii_of_string s).

(** [str.isspace]: the code points Python's [str.strip()] removes. *)
Definition py_isspace (c : Z) : bool :=
  bool_decide ((9 <= c <= 13) \/ (28 <= c <= 32) \/ c = 133 \/ c = 160 \/
               c = 5760 \/ (8192 <= c <= 8202) \/ c = 8232 \/ c = 8233 \/
               c = 8239 \/ c = 8287 \/ c = 12288).

Fixpoint lstrip (l : list Z) : list Z :=
  match l with
  | c :: r => if py_isspace c then lstrip r else l
  | [] => []
  end.

Definition py_strip (l : list Z) : list Z := rev (lstrip (rev (lstrip l))).

(** The argument of one [append_log_line] call, before formatting. *)
Inductive log_entry :=
  | LogCmd (line : list Z)     (* f"[{client_ip}] CMD> {line}" *)
  | LogResp (line : list Z).   (* f"[{client_ip}] RESP> {line}" *)

Definition render (client_ip : list Z) (en : log_entry) : list Z :=
  match en with
  | LogCmd l => cps "[" ++ client_ip ++ cps "] CMD> " ++ l
  | LogResp l => cps "[" ++ client_ip ++ cps "] RESP> " ++ l
  end.

Record cmd_logger := mkLogger {
  buffer : list Z;
  response_buffer : list Z;
  response_lines : list (list Z);
  out : list log_entry           (* append_log_line calls, oldest first *)
}.

Definition fresh_logger : cmd_logger := mkLogger [] [] [] [].

Section CommandLogger.
Variable decode : list Byte.byte -> list Z.
Variable isprintable : Z -> bool.
Variable strip_ansi_codes : list Z -> list Z.

Definition write_truncated_responses (st : cmd_logger) : cmd_logger :=
  match response_lines st with
  | [] => st
  | rl =>
      let cleaned := map strip_ansi_codes rl in
      let N := 10%nat in
      let truncated :=
        if decide (length cleaned <= N)%nat then cleaned
        else take (N - 2) cleaned ++ [cps "..."] ++ drop (length cleaned - 2) cleaned in
      mkLogger (buffer st) (response_buffer st) [] (out st ++ map LogResp truncated)
  end.

Definition flush_line (st : cmd_logger) : cmd_logger :=
  let st := write_truncated_responses st in
  match buffer st with
  | [] => st
  | b =>
      let line := py_strip b in
      let o := match line with [] => out st | _ => out st ++ [LogCmd line] end in
      mkLogger [] (response_buffer st) (response_lines st) o
  end.

(** One iteration of [for ch in text] in [feed_keystrokes]. *)
Definition feed_key (st : cmd_logger) (ch : Z) : cmd_logger :=
  if bool_decide (ch = 13 \/ ch = 10) then flush_line st
  else if bool_decide (ch = 127) then
    (* if self._buffer: self._buffer.pop() *)
    mkLogger (removelast (buffer st)) (response_buffer st) (response_lines st) (out st)
  else if isprintable ch then
    mkLogger (buffer st ++ [ch]) (response_buffer st) (response_lines st) (out st)
  else st.

Definition feed_text (st : cmd_logger) (text : list Z) : cmd_logger :=
  foldl feed_key st text.

Definition feed_keystrokes (st : cmd_logger) (payload : list Byte.byte) : cmd_logger :=
  feed_text st (decode payload).
End CommandLogger.

(* ================================================================== *)
(** ** [HoneypotServerInterface] authentication callbacks *)

Inductive auth_result := AUTH_SUCCESSFUL | AUTH_FAILED.

Definition hex_digit (n : N) : Ascii.ascii :=
  if decide (n < 10)%N then Ascii.ascii_of_N (48 + n) else Ascii.ascii_of_N (87 + n).

(** [bytes.hex()]. *)
Definition bytes_hex (bs : list Byte.byte) : string :=
  String.string_of_list_ascii
    (bs ≫= fun b => let n := Byte.to_N b in
                    [hex_digit (n `div` 16)%N; hex_digit (n `mod` 16)%N]).

Inductive auth_event :=
  | EvAuthPassword (username password : string)
  | EvAuthPublickey (username fingerprint_hex : string)
  | EvAuthNone (username : string)
  | EvFallback.  (* "Attacker authentication lacked reusable password; ..." *)

Record server_iface := mkServer {
  username : option string;
  password : option string;
  events : list auth_event
}.

Definition fresh_server : server_iface := mkServer None None [].

Definition check_auth_password (u pw : string) (s : server_iface)
    : auth_result * server_iface :=
  (AUTH_SUCCESSFUL, mkServer (Some u) (Some pw) (events s ++ [EvAuthPassword u pw])).

(** A public key is given by its fingerprint bytes ([key.get_fingerprint()]). *)
Definition check_auth_publickey (u : string) (fingerprint : list Byte.byte) (s : server_iface)
    : auth_result * server_iface :=
  (AUTH_SUCCESSFUL,
   mkServer (Some u) (password s) (events s ++ [EvAuthPublickey u (bytes_hex fingerprint)])).

Definition check_auth_none (u : string) (s : server_iface) : auth_result * server_iface :=
  (AUTH_FAILED, mkServer (Some u) (password s) (events s ++ [EvAuthNone u])).

(* ================================================================== *)
(** ** [_resolve_backend_credentials]

    The reuse policy [USE_ATTACKER_CREDENTIALS] is an argument so both of
    its settings can be stated; the module's value is [true].  [None] is
    the [RuntimeError] raised when no credentials are configured. *)

Definition USE_ATTACKER_CREDENTIALS : bool := true.
Definition BACKEND_USERNAME : string := "root".
Definition BACKEND_PASSWORD : string := "root".
Definition BACKEND_KEY_PATH : option string := None.

(** Python truthiness of an [Optional[str]]. *)
Definition truthy (o : option string) : bool :=
  match o with Some s => negb (String.eqb s "") | None => false end.

Definition backend_fallback (s : server_iface)
    : option (string * string * option string) * server_iface :=
  if truthy (Some BACKEND_USERNAME)
  then (Some (BACKEND_USERNAME, BACKEND_PASSWORD, BACKEND_KEY_PATH), s)
  else (None, s).

Definition resolve_backend_credentials (use_attacker_credentials : bool) (s : server_iface)
    : option (string * string * option string) * server_iface :=
  let logged := mkServer (username s) (password s) (events s ++ [EvFallback]) in
  if use_attacker_credentials && truthy (username s) then
    match username s, password s with
    | Some u, Some pw =>
        if truthy (Some pw) then (Some (u, pw, None), s) else backend_fallback logged
    | _, _ => backend_fallback logged
    end
  else backend_fallback s.

(* ================================================================== *)
(** ** [strip_ansi_codes]

    Three [re.sub] passes over the code points of the text.  A matcher
    returns the text after the match when the pattern matches at the
    start of its argument.  In both patterns the repeated class and the
    final class are disjoint, so the greedy match never backtracks and
    the matchers below accept exactly what [re] accepts. *)

Definition is_digit_semi (c : Z) : bool := bool_decide ((48 <= c <= 57) \/ c = 59).
Definition is_param (c : Z) : bool := is_digit_semi c || bool_decide (c = 63).
(** [[A-Za-z@]]: [@] is 64, [A-Z] 65..90, [a-z] 97..122. *)
Definition is_final (c : Z) : bool := bool_decide ((64 <= c <= 90) \/ (97 <= c <= 122)).

(** [cls*] followed by one [A-Za-z@]. *)
Fixpoint match_run_final (cls : Z -> bool) (l : list Z) : option (list Z) :=
  match l with
  | [] => None
  | c :: r => if cls c then match_run_final cls r
              else if is_final c then Some r else None
  end.

(** [\x1b\[[0-9;?]*[A-Za-z@]] (the first two passes; [\033] is [\x1b]). *)
Definition match_esc_csi (l : list Z) : option (list Z) :=
  match l with
  | c :: d :: r => if bool_decide (c = 27 /\ d = 91) then match_run_final is_param r else None
  | _ => None
  end.

(** [\[(?:\?)?[0-9;]*[A-Za-z@]]: the optional [?] is tried first. *)
Definition match_bare_csi (l : list Z) : option (list Z) :=
  match l with
  | c :: r =>
      if bool_decide (c = 91) then
        match r with
        | q :: r' =>
            if bool_decide (q = 63) then
              match match_run_final is_digit_semi r' with
              | Some x => Some x
              | None => match_run_final is_digit_semi r
              end
            else match_run_final is_digit_semi r
        | [] => None
        end
      else None
  | [] => None
  end.

(** [re.sub(pattern, '', text)]: scan left to right, drop each match and
    resume after it, otherwise keep the character.  Every match is
    non-empty, so [length l] steps suffice. *)
Fixpoint re_sub_fuel (m : list Z -> option (list Z)) (fuel : nat) (l : list Z) : list Z :=
  match fuel with
  | O => l
  | S f =>
      match l with
      | [] => []
      | c :: r =>
          match m l with
          | Some rest => re_sub_fuel m f rest
          | None => c :: re_sub_fuel m f r
          end
      end
  end.

Definition re_sub (m : list Z -> option (list Z)) (l : list Z) : list Z :=
  re_sub_fuel m (length l) l.

Definition strip_ansi_codes (text : list Z) : list Z :=
  let text := re_sub match_esc_csi text in
  let text := re_sub match_esc_csi text in
  re_sub match_bare_csi text.

(* ================================================================== *)
(** ** [CommandLogger]: the response side and [flush] *)

Section ResponseLogger.
Variable isprintable : Z -> bool.
Variable strip_ansi : list Z -> list Z.

Definition flush_response_line (st : cmd_logger) : cmd_logger :=
  match response_buffer st with
  | [] => st
  | rb =>
      let line := py_strip rb in
      let rl := match line with [] => response_lines st | _ => response_lines st ++ [line] end in
      mkLogger (buffer st) [] rl (out st)
  end.

(** One iteration of [for ch in text] in [feed_response]. *)
Definition feed_resp_char (st : cmd_logger) (ch : Z) : cmd_logger :=
  if bool_decide (ch = 13 \/ ch = 10) then flush_response_line st
  else if isprintable ch || bool_decide (ch = 9) then
    mkLogger (buffer st) (response_buffer st ++ [ch]) (response_lines st) (out st)
  else st.

Definition feed_response_text (st : cmd_logger) (text : list Z) : cmd_logger :=
  foldl feed_resp_char st text.

(** [CommandLogger.flush]: [_flush_line], then the remaining responses. *)
Definition logger_flush (st : cmd_logger) : cmd_logger :=
  write_truncated_responses strip_ansi (flush_line strip_ansi st).
End ResponseLogger.

(* ================================================================== *)
(** ** [VMManager.get_vm_ip]

    After [asyncio.sleep(10)], 60 attempts.  What the hypervisor shows at
    attempt [k] is an input.  The function returns the address found and
    the seconds spent in [asyncio.sleep]. *)

Definition VIR_IP_ADDR_TYPE_IPV4 : Z := 0.

Record if_addr := mkAddr { addr_type : Z; addr : string }.

Inductive poll_obs :=
  | NotActive                                    (* dom.isActive() == 0 *)
  | PollRaises                                   (* other exception: outer except *)
  | AgentError                                   (* libvirt.libvirtError from the agent *)
  | Reported (ifaces : list (string * list if_addr)).  (* interfaceAddresses(...).items() *)

(** The nested [for] loops over the interfaces and their addresses. *)
Definition first_ipv4 (ifaces : list (string * list if_addr)) : option string :=
  head (ifaces ≫= fun '(_, addrs) =>
          (filter (fun a => addr_type a = VIR_IP_ADDR_TYPE_IPV4 /\ addr a <> "127.0.0.1") addrs)
          ≫= fun a => [addr a]).

Fixpoint poll_attempts (obs : nat -> poll_obs) (attempt left : nat) (slept : Z)
    : option string * Z :=
  match left with
  | O => (None, slept)                          (* "Timed out waiting for guest agent" *)
  | S l =>
      match obs attempt with
      | NotActive | PollRaises | AgentError =>
          poll_attempts obs (S attempt) l (slept + 1)   (* await asyncio.sleep(1) *)
      | Reported ifs =>
          match first_ipv4 ifs with
          | Some a => (Some a, slept)
          | None => poll_attempts obs (S attempt) l slept  (* no sleep on this path *)
          end
      end
  end.

Definition get_vm_ip (obs : nat -> poll_obs) : option string * Z :=
  poll_attempts obs O 60 10.

(** The address attempt [k] would return, if any. *)
Definition usable_at (obs : nat -> poll_obs) (k : nat) : option string :=
  match obs k with Reported ifs => first_ipv4 ifs | _ => None end.

(** Attempts among the first [n] that sleep. *)
Fixpoint sleeping_attempts (obs : nat -> poll_obs) (from n : nat) : nat :=
  match n with
  | O => O
  | S m => match obs from with
           | Reported _ => sleeping_attempts obs (S from) m
           | _ => S (sleeping_attempts obs (S from) m)
           end
  end.

(* ================================================================== *)
(** ** [HoneypotServerInterface]: channel requests

    The exec command is the decoded string ([command.decode(errors="ignore")]). *)

Record pty_req := mkPty { term : string; width : Z; height : Z; pixelwidth : Z; pixelheight : Z }.

Record chan_state := mkChan {
  exec_command : option string;
  pty_params : option pty_req;
  shell_requested : bool;
  channel_ready : bool          (* threading.Event *)
}.

Definition fresh_chan : chan_state := mkChan None None false false.

Inductive chan_request :=
  | ReqShell                    (* check_channel_shell_request *)
  | ReqExec (command : string)  (* check_channel_exec_request *)
  | ReqPty (p : pty_req).       (* check_channel_pty_request *)

(** Each callback returns [True]. *)
Definition handle_request (st : chan_state) (r : chan_request) : bool * chan_state :=
  match r with
  | ReqShell => (true, mkChan (exec_command st) (pty_params st) true true)
  | ReqExec c => (true, mkChan (Some c) (pty_params st) (shell_requested st) true)
  | ReqPty p => (true, mkChan (exec_command st) (Some p) (shell_requested st) (channel_ready st))
  end.

Definition handle_requests (st : chan_state) (rs : list chan_request) : chan_state :=
  foldl (fun s r => (handle_request s r).2) st rs.

(** Request lists: the last exec request, the last pty request. *)
Definition no_exec (rs : list chan_request) : Prop := forall c, ReqExec c ∉ rs.
Definition no_pty (rs : list chan_request) : Prop := forall p, ReqPty p ∉ rs.
Definition last_exec (rs : list chan_request) (c : string) : Prop :=
  exists rs1 rs2, rs = rs1 ++ ReqExec c :: rs2 /\ no_exec rs2.
Definition last_pty (rs : list chan_request) (p : pty_req) : Prop :=
  exists rs1 rs2, rs = rs1 ++ ReqPty p :: rs2 /\ no_pty rs2.

(* ================================================================== *)
(** ** [open_backend_channel]: the channel opened on the VM *)

Inductive backend_chan :=
  | ExecChan (pty : option pty_req) (command : string)   (* get_pty if pty, exec_command *)
  | ShellChan (term : string) (width height width_pixels height_pixels : Z).  (* invoke_shell *)

Definition open_backend_channel (st : chan_state) : backend_chan :=
  match exec_command st with
  | Some c =>
      if truthy (Some c) then ExecChan (pty_params st) c
      else match pty_params st with
           | Some p => ShellChan (term p) (width p) (height p) (pixelwidth p) (pixelheight p)
           | None => ShellChan "xterm" 80 24 0 0
           end
  | None =>
      match pty_params st with
      | Some p => ShellChan (term p) (width p) (height p) (pixelwidth p) (pixelheight p)
      | None => ShellChan "xterm" 80 24 0 0
      end
  end.

(* ================================================================== *)
(** ** The MAC address of [_create_transient_vm]

    ["52:54:00:%02x:%02x:%02x" % (randint(0,255), ...)]; [%02x] of a
    number below 256 is two lower-case hex digits. *)

Definition fmt02x (n : N) : string :=
  String.string_of_list_ascii [hex_digit (n `div` 16)%N; hex_digit (n `mod` 16)%N].

Definition mac_address (a b c : N) : string :=
  "52:54:00:" +:+ fmt02x a +:+ ":" +:+ fmt02x b +:+ ":" +:+ fmt02x c.

(** Reading a MAC back: the three octets from their hex digits. *)
Definition hex_val (a : Ascii.ascii) : N :=
  let n := Ascii.N_of_ascii a in if (n <? 58)%N then (n - 48)%N else (n - 87)%N.

Definition parse_mac (s : string) : option (N * N * N) :=
  match String.list_ascii_of_string s with
  | [_; _; _; _; _; _; _; _; _; a1; a2; _; b1; b2; _; c1; c2] =>
      Some ((hex_val a1 * 16 + hex_val a2)%N, (hex_val b1 * 16 + hex_val b2)%N,
            (hex_val c1 * 16 + hex_val c2)%N)
  | _ => None
  end.

(* ================================================================== *)
(** ** [load_host_key]

    The classes tried, in order: RSAKey, then Ed25519Key, ECDSAKey and
    DSSKey when [getattr] finds them ([None] entries are skipped).  What
    [from_private_key_file] does for a class is an input. *)

Inductive key_class := RSAKey | Ed25519Key | ECDSAKey | DSSKey.

Inductive key_attempt :=
  | Loaded (k : string)
  | RaisesSSHException
  | RaisesValueError
  | RaisesOther.          (* any other exception: not caught *)

Inductive host_key_result :=
  | HostKey (k : string)
  | FileNotFoundError
  | RuntimeError_       (* "Failed to load host key ..." *)
  | Propagated.         (* an uncaught exception of from_private_key_file *)

Fixpoint try_key_classes (classes : list (option key_class)) (attempt : key_class -> key_attempt)
    : host_key_result :=
  match classes with
  | [] => RuntimeError_
  | None :: rest => try_key_classes rest attempt
  | Some kc :: rest =>
      match attempt kc with
      | Loaded k => HostKey k
      | RaisesSSHException | RaisesValueError => try_key_classes rest attempt
      | RaisesOther => Propagated
      end
  end.

(** [key_classes]: whether [getattr] finds each optional class is an input. *)
Definition key_classes (ed25519 ecdsa dss : bool) : list (option key_class) :=
  [Some RSAKey; if ed25519 then Some Ed25519Key else None;
   if ecdsa then Some ECDSAKey else None; if dss then Some DSSKey else None].

Definition load_host_key (path_exists : bool) (ed25519 ecdsa dss : bool)
    (attempt : key_class -> key_attempt) : host_key_result :=
  if path_exists then try_key_classes (key_classes ed25519 ecdsa dss) attempt
  else FileNotFoundError.

(** The exceptions the loop catches: [(paramiko.SSHException, ValueError)]. *)
Definition caught (a : key_attempt) : Prop := a = RaisesSSHException \/ a = RaisesValueError.

(* ================================================================== *)
(** ** [append_log_line]

    The log file's content is a list of code points; [print] output goes
    to [stderr] lines. *)

(** First occurrence of [sep] in [l]: the text before and after it. *)
Fixpoint find_sub (sep l : list Z) : option (list Z * list Z) :=
  if decide (sep `prefix_of` l) then Some ([], drop (length sep) l)
  else match l with
       | [] => None
       | c :: r => match find_sub sep r with
                   | Some (b, a) => Some (c :: b, a)
                   | None => None
                   end
       end.

(** [sep in l]. *)
Definition is_infix (sep l : list Z) : Prop := exists k1 k2, l = k1 ++ sep ++ k2.

(** [toks = line.split("RESP>")]: [len(toks) > 1] when [find_sub]
    succeeds, and [toks[1]] is the text up to the next separator. *)
Definition second_token (sep line : list Z) : option (list Z) :=
  match find_sub sep line with
  | None => None
  | Some (_, after) => Some (match find_sub sep after with Some (mid, _) => mid | None => after end)
  end.

Definition append_log_line (file : list Z) (line : list Z) : list Z * list Z :=
  match second_token (cps "RESP>") line with
  | None => (file, cps "[L] " ++ line)
  | Some tok =>
      let cleaned := strip_ansi_codes (py_strip tok) in
      let cleaned := if decide (cps "]0;" `prefix_of` cleaned) then 10 :: drop 3 cleaned
                     else cleaned in
      let file' := if decide (cps "Welcome to Ubuntu" `prefix_of` cleaned)
                   then cleaned ++ [10]                   (* open(..., "w") *)
                   else file ++ cleaned ++ [10] in        (* open(..., "a") *)
      (file', cps "[L] " ++ cleaned)
  end.

(* ================================================================== *)
(** ** [attacker_listener]: what happens to one accepted connection

    [fut.result(timeout=30)] either raises ([None]) or gives the target. *)

Inductive conn_outcome :=
  | ClosedAssignFailed      (* exception from fut.result: socket closed *)
  | ClosedNoTarget          (* "No target IP returned": socket closed *)
  | ProxyScheduled (target : string).

Definition dispatch_connection (fut_result : option (option string)) : conn_outcome :=
  match fut_result with
  | None => ClosedAssignFailed
  | Some t => match t with
              | Some ip => if truthy (Some ip) then ProxyScheduled ip else ClosedNoTarget
              | None => ClosedNoTarget
              end
  end.

(* ================================================================== *)
(** ** [relay_channels]

    One loop iteration sees a [relay_tick]: what [recv] returns on each
    channel when [recv_ready()] holds ([None] when it does not; the empty
    list is EOF), the [closed] flags and the exit statuses.  The send
    primitives of the three directions are [sender]s indexed by the
    iteration.  A script of ticks is a prefix of a run; [None] as stop
    reason means the loop is still running at the end of the script. *)

Record relay_tick := mkTick {
  a_data : option (list Byte.byte);   (* attacker_channel.recv(4096) *)
  b_data : option (list Byte.byte);   (* backend_channel.recv(4096) *)
  e_data : option (list Byte.byte);   (* backend_channel.recv_stderr(4096) *)
  a_closed : bool;
  b_closed : bool;
  a_exit : option Z;                  (* exit_status_ready() and the status *)
  b_exit : option Z
}.

Inductive stop_reason :=
  | AttackerEOF | BackendStdoutEOF | BackendStderrEOF
  | AttackerClosed | BackendClosed
  | AttackerExit (status : Z) | BackendExit (status : Z)
  | RelayException.                   (* EOFError from send_all *)

Record relay_state := mkRelay {
  logger : cmd_logger;
  to_backend : list Byte.byte;        (* bytes delivered to the VM *)
  to_attacker : list Byte.byte;       (* bytes delivered on the attacker's stdout *)
  to_attacker_err : list Byte.byte    (* bytes delivered on the attacker's stderr *)
}.

Section Relay.
Variable decode : list Byte.byte -> list Z.
Variable isprintable : Z -> bool.
Variable strip_ansi : list Z -> list Z.
Variables send_backend send_attacker send_attacker_stderr : nat -> sender.

(** [send_all]: whether it returned normally, and the bytes delivered. *)
Definition forward (f : sender) (data : list Byte.byte) : bool * list Byte.byte :=
  let '(r, delivered, _) := send_all f data in
  (match r with SendOk => true | SendEOFError => false end, delivered).

(** The state after a step, and whether the loop breaks. *)
Definition relay_result : Type := relay_state * option stop_reason.

(** One [if ... recv_ready()] block: [Some] data is logged by [feed] and
    forwarded with [f] into the stream selected by [put]. *)
Definition relay_block (data : option (list Byte.byte)) (eof : stop_reason)
    (feed : cmd_logger -> list Byte.byte -> cmd_logger) (f : sender)
    (put : relay_state -> list Byte.byte -> relay_state)
    (st : relay_state) : relay_state * bool * option stop_reason :=
  match data with
  | None => (st, false, None)
  | Some [] => (st, false, Some eof)
  | Some d =>
      let st1 := mkRelay (feed (logger st) d) (to_backend st) (to_attacker st)
                         (to_attacker_err st) in
      let '(ok, delivered) := forward f d in
      (put st1 delivered, true, if ok then None else Some RelayException)
  end.

Definition put_backend (st : relay_state) (d : list Byte.byte) : relay_state :=
  mkRelay (logger st) (to_backend st ++ d) (to_attacker st) (to_attacker_err st).
Definition put_attacker (st : relay_state) (d : list Byte.byte) : relay_state :=
  mkRelay (logger st) (to_backend st) (to_attacker st ++ d) (to_attacker_err st).
Definition put_attacker_err (st : relay_state) (d : list Byte.byte) : relay_state :=
  mkRelay (logger st) (to_backend st) (to_attacker st) (to_attacker_err st ++ d).

Definition feed_keys (lg : cmd_logger) (d : list Byte.byte) : cmd_logger :=
  feed_keystrokes decode isprintable strip_ansi lg d.
Definition feed_resp (lg : cmd_logger) (d : list Byte.byte) : cmd_logger :=
  feed_response_text isprintable lg (decode d).

(** One iteration of [while True]. *)
Definition relay_iter (n : nat) (t : relay_tick) (st : relay_state) : relay_result :=
  let '(st, t1, r) := relay_block (a_data t) AttackerEOF feed_keys (send_backend n)
                                  put_backend st in
  match r with Some r => (st, Some r) | None =>
  let '(st, t2, r) := relay_block (b_data t) BackendStdoutEOF feed_resp (send_attacker n)
                                  put_attacker st in
  match r with Some r => (st, Some r) | None =>
  let '(st, t3, r) := relay_block (e_data t) BackendStderrEOF feed_resp
                                  (send_attacker_stderr n) put_attacker_err st in
  match r with Some r => (st, Some r) | None =>
  if a_closed t then (st, Some AttackerClosed)
  else if b_closed t then (st, Some BackendClosed)
  else if t1 || t2 || t3 then (st, None)
  else match a_exit t, b_exit t with
       | Some s, _ => (st, Some (AttackerExit s))
       | None, Some s => (st, Some (BackendExit s))
       | None, None => (st, None)       (* time.sleep(RELAY_IDLE_SLEEP) *)
       end
  end end end.

Fixpoint relay_loop (n : nat) (ticks : list relay_tick) (st : relay_state) : relay_result :=
  match ticks with
  | [] => (st, None)
  | t :: ts =>
      match relay_iter n t st with
      | (st', Some r) => (st', Some r)
      | (st', None) => relay_loop (S n) ts st'
      end
  end.

(** [relay_channels]: when the loop breaks, the [finally] block flushes
    the logger. *)
Definition relay_channels (ticks : list relay_tick) (lg : cmd_logger) : relay_result :=
  match relay_loop O ticks (mkRelay lg [] [] []) with
  | (st, Some r) => (mkRelay (logger_flush strip_ansi (logger st)) (to_backend st)
                             (to_attacker st) (to_attacker_err st), Some r)
  | (st, None) => (st, None)
  end.
End Relay.

(** A tick on which the loop neither reads EOF nor sees a closed
    channel, and which carries data or no exit status. *)
Definition quiet_tick (t : relay_tick) : Prop :=
  a_data t <> Some [] /\ b_data t <> Some [] /\ e_data t <> Some [] /\
  a_closed t = false /\ b_closed t = false /\
  (a_data t = None /\ b_data t = None /\ e_data t = None -> a_exit t = None /\ b_exit t = None).

(** The bytes offered by a script on one direction. *)
Definition offered (sel : relay_tick -> option (list Byte.byte)) (ticks : list relay_tick)
    : list Byte.byte :=
  ticks ≫= fun t => default [] (sel t).

(** A send primitive that never reports a closed channel (returns 0). *)
Definition live_sender (f : nat -> sender) : Prop :=
  forall n k v, v <> [] -> f n k v <> Some O.

(* ================================================================== *)
(** * Proofs *)

Lemma remove_sessions_subseteq ips hv e :
  fst (remove_sessions ips hv e) ⊆ hv.
Proof.
  revert hv e. induction ips as [|cip rest IH]; intros hv e; simpl; [done|].
  destruct (hv !! cip) eqn:Hl.
  - etrans; [apply IH|]. apply delete_subseteq.
  - apply IH.
Qed.

Lemma ensure_warm_vm_inv run_id o p e :
  pool_inv p -> pool_inv (fst (ensure_warm_vm run_id o p e)).
Proof.
  intros Hinv. unfold ensure_warm_vm.
  destruct (decide _) as [Hcap|Hcap]; [exact Hinv|].
  destruct (warm_vm p) eqn:Hw; [exact Hinv|].
  destruct o as [fp|[g|]]; simpl; try exact Hinv.
  unfold pool_inv, hot_count; simpl. split; [lia|]. intros _. lia.
Qed.

Lemma get_target_inv now cip p r p' sp :
  pool_inv p -> get_target_for_client now cip p = (r, p', sp) -> pool_inv p'.
Proof.
  unfold get_target_for_client, pool_inv, hot_count.
  destruct (hot_vms p !! cip) as [h|] eqn:Hl.
  - intros Hinv [= <- <- <-]; simpl.
    rewrite map_size_insert_Some by eauto. done.
  - destruct (decide _) as [Hcap|Hcap]; [by intros ? [= <- <- <-]|].
    destruct (warm_vm p) as [w|] eqn:Hw; intros [H1 H2] Heq; inversion Heq; subst; simpl.
    + rewrite map_size_insert_None by done.
      split; [|done]. specialize (H2 ltac:(congruence)). lia.
    + done.
Qed.

Lemma cleanup_inv now force p e :
  pool_inv p -> pool_inv (fst (cleanup_expired_sessions now force p e)).
Proof.
  unfold cleanup_expired_sessions, pool_inv, hot_count.
  pose proof (remove_sessions_subseteq (to_remove now force (hot_vms p)) (hot_vms p) e) as Hsub.
  destruct (remove_sessions _ _ _) as [hv e'] eqn:Hr; simpl in *.
  apply map_subseteq_size in Hsub. intros [H1 H2]; split; [lia|].
  intros Hw. specialize (H2 Hw). lia.
Qed.

Lemma reachable_inv s : reachable s -> pool_inv (fst s).
Proof.
  induction 1 as [e|s s' _ IH Hstep].
  - unfold pool_inv, hot_count; simpl. rewrite map_size_empty. split; [lia|done].
  - inversion Hstep; subst; simpl in *.
    + by apply ensure_warm_vm_inv.
    + by eapply get_target_inv.
    + by apply cleanup_inv.
Qed.

Lemma cleanup_vm_entry_removes d dsk e :
  (d ∉ faulty e -> d ∉ active (cleanup_vm_entry d dsk e)) /\
  (dsk ∉ disks (cleanup_vm_entry d dsk e)).
Proof.
  unfold cleanup_vm_entry.
  destruct (decide (d ∈ faulty e)); [|destruct (decide (d ∈ active e))]; simpl;
    destruct (decide (dsk ∈ disks _)); simpl; set_solver.
Qed.

Lemma cleanup_vm_entry_shrinks d dsk e :
  active (cleanup_vm_entry d dsk e) ⊆ active e /\ disks (cleanup_vm_entry d dsk e) ⊆ disks e.
Proof.
  unfold cleanup_vm_entry.
  destruct (decide (d ∈ faulty e)); [|destruct (decide (d ∈ active e))]; simpl;
    destruct (decide (dsk ∈ disks _)); simpl; set_solver.
Qed.

Lemma cleanup_vm_entry_faulty d dsk e : faulty (cleanup_vm_entry d dsk e) = faulty e.
Proof.
  unfold cleanup_vm_entry.
  destruct (decide (d ∈ faulty e)); [|destruct (decide (d ∈ active e))]; simpl;
    destruct (decide (dsk ∈ disks _)); done.
Qed.

(** A domain whose [isActive()]/[destroy()] raises keeps its state. *)
Lemma cleanup_vm_entry_faulty_active d dsk e x :
  x ∈ faulty e -> (x ∈ active (cleanup_vm_entry d dsk e) <-> x ∈ active e).
Proof.
  intros Hx. unfold cleanup_vm_entry.
  destruct (decide (d ∈ faulty e)); [|destruct (decide (d ∈ active e))]; simpl;
    destruct (decide (dsk ∈ disks _)); simpl; try done;
    (destruct (decide (x = d)); [subst; done|set_solver]).
Qed.

Lemma remove_sessions_shrinks ips hv e :
  active (snd (remove_sessions ips hv e)) ⊆ active e /\
  disks (snd (remove_sessions ips hv e)) ⊆ disks e.
Proof.
  revert hv e. induction ips as [|cip rest IH]; intros hv e; simpl; [done|].
  destruct (hv !! cip) as [h|]; [|apply IH].
  destruct (IH (delete cip hv) (cleanup_vm_entry (dom (vm h)) (disk (vm h)) e)).
  destruct (cleanup_vm_entry_shrinks (dom (vm h)) (disk (vm h)) e).
  split; etrans; eauto.
Qed.

Lemma remove_sessions_lookup ips hv e c :
  fst (remove_sessions ips hv e) !! c = if decide (c ∈ ips) then None else hv !! c.
Proof.
  revert hv e. induction ips as [|cip rest IH]; intros hv e; simpl.
  - try case_decide; set_solver.
  - destruct (hv !! cip) as [h|] eqn:Hl; rewrite IH;
      destruct (decide (c ∈ rest)), (decide (c ∈ cip :: rest)); try set_solver;
      (destruct (decide (c = cip)) as [->|Hne];
       [rewrite ?lookup_delete_eq; first [done | set_solver]
       |rewrite ?lookup_delete_ne by congruence; first [done | set_solver]]).
Qed.

Lemma remove_sessions_faulty ips hv e : faulty (snd (remove_sessions ips hv e)) = faulty e.
Proof.
  revert hv e. induction ips as [|cip rest IH]; intros hv e; simpl; [done|].
  destruct (hv !! cip) as [h|]; rewrite IH; [apply cleanup_vm_entry_faulty|done].
Qed.

Lemma remove_sessions_faulty_active ips hv e x :
  x ∈ faulty e -> (x ∈ active (snd (remove_sessions ips hv e)) <-> x ∈ active e).
Proof.
  revert hv e. induction ips as [|cip rest IH]; intros hv e Hx; simpl; [done|].
  destruct (hv !! cip) as [h|]; [|by apply IH].
  rewrite IH by (by rewrite cleanup_vm_entry_faulty).
  by apply cleanup_vm_entry_faulty_active.
Qed.

Lemma remove_sessions_cleans ips hv e c h :
  c ∈ ips -> hv !! c = Some h ->
  (dom (vm h) ∉ faulty e -> dom (vm h) ∉ active (snd (remove_sessions ips hv e))) /\
  (disk (vm h) ∉ disks (snd (remove_sessions ips hv e))).
Proof.
  revert hv e. induction ips as [|cip rest IH]; intros hv e Hin Hl; simpl; [set_solver|].
  destruct (decide (c = cip)) as [->|Hne].
  - rewrite Hl.
    destruct (remove_sessions_shrinks rest (delete cip hv)
                (cleanup_vm_entry (dom (vm h)) (disk (vm h)) e)).
    destruct (cleanup_vm_entry_removes (dom (vm h)) (disk (vm h)) e).
    split; [|set_solver]. intros Hf. specialize (H1 Hf). set_solver.
  - assert (c ∈ rest) by set_solver.
    destruct (hv !! cip) as [h'|]; [|by apply IH].
    destruct (IH (delete cip hv) (cleanup_vm_entry (dom (vm h')) (disk (vm h')) e))
      as [H1 H2]; [done|by rewrite lookup_delete_ne by congruence|].
    rewrite cleanup_vm_entry_faulty in H1. done.
Qed.

Lemma elem_of_to_remove now force (hv : gmap string hot_entry) c :
  c ∈ to_remove now force hv <-> exists h, hv !! c = Some h /\ (force || expired now h) = true.
Proof.
  unfold to_remove. rewrite list_elem_of_bind. split.
  - intros [[c' h] [Hc Hm]]. apply elem_of_map_to_list in Hm.
    destruct (force || expired now h) eqn:Hx; [|set_solver].
    apply list_elem_of_singleton in Hc; subst. eauto.
  - intros [h [Hm Hx]]. exists (c, h). rewrite elem_of_map_to_list, Hx. set_solver.
Qed.

(* ------------------------------------------------------------------ *)
(** *** C1 *)

(** C1: in every state reachable from the empty pool by any sequence of
    [ensure_warm_vm], [get_target_for_client] and
    [cleanup_expired_sessions] calls, there are at most [MAX_HOT_VMS] Hot
    sessions and at most one Warm instance. *)
Theorem pool_invariant s :
  reachable s -> (hot_count (fst s) <= MAX_HOT_VMS)%nat /\ (warm_count (fst s) <= 1)%nat.
Proof.
  intros Hr. destruct (reachable_inv s Hr) as [H1 _]. split; [done|].
  unfold warm_count. destruct (warm_vm (fst s)); lia.
Qed.

Definition demo_env : env := mkEnv ∅ ∅ ∅ [] ∅.

(** A hypervisor on which [trap_3f9a1c2e] runs with its overlay disk,
    and [destroy()] on it raises. *)
Definition demo_env_stuck : env :=
  mkEnv {[ overlay_path "3f9a1c2e" ]} {[ "trap_3f9a1c2e" ]} {[ "trap_3f9a1c2e" ]} []
        {[ "trap_3f9a1c2e" ]}.
Definition demo_s1 : pool * env :=
  ensure_warm_vm "3f9a1c2e" (Boots (Some "192.168.122.57")) empty_pool demo_env.
Definition demo_s2 : pool * env :=
  ((get_target_for_client 1000 "203.0.113.9" (fst demo_s1)).1.2, snd demo_s1).

Lemma pool_invariant_witness :
  reachable demo_s2 /\ (hot_count (fst demo_s2) <= MAX_HOT_VMS)%nat /\
  (warm_count (fst demo_s2) <= 1)%nat.
Proof.
  assert (Hr : reachable demo_s2).
  { assert (H1 : reachable demo_s1)
      by (eapply reach_step; [apply (reach_init demo_env)|apply step_ensure]).
    eapply reach_step; [exact H1|]. unfold demo_s2.
    destruct demo_s1 as [p e]; simpl.
    destruct (get_target_for_client 1000 "203.0.113.9" p) as [[r p'] sp] eqn:Hg.
    simpl. exact (step_get _ _ _ _ _ _ _ Hg). }
  split; [exact Hr|]. apply pool_invariant. exact Hr.
Defined.

(* ------------------------------------------------------------------ *)
(** *** C2 *)

(** C2 (stickiness): if [client_ip] owns a Hot session, two consecutive
    [get_target_for_client] calls return that session's IP, and each
    sets the session's [last_seen] to the time of the call. *)
Theorem get_target_sticky now1 now2 cip p h :
  hot_vms p !! cip = Some h ->
  let c1 := get_target_for_client now1 cip p in
  let c2 := get_target_for_client now2 cip c1.1.2 in
  c1.1.1 = Some (ip (vm h)) /\ c2.1.1 = c1.1.1 /\
  (last_seen <$> (hot_vms c1.1.2 !! cip)) = Some now1 /\
  (last_seen <$> (hot_vms c2.1.2 !! cip)) = Some now2.
Proof.
  intros Hl. unfold get_target_for_client; rewrite Hl; simpl.
  rewrite lookup_insert_eq; simpl. rewrite !lookup_insert_eq. done.
Qed.

Definition demo_pool_hot : pool :=
  mkPool None {[ "203.0.113.9" := mkHot (mkVm "trap_3f9a1c2e" "192.168.122.57"
                                              "3f9a1c2e" (overlay_path "3f9a1c2e")) 1000 ]}.

Lemma get_target_sticky_witness :
  hot_vms demo_pool_hot !! "203.0.113.9" =
    Some (mkHot (mkVm "trap_3f9a1c2e" "192.168.122.57" "3f9a1c2e" (overlay_path "3f9a1c2e")) 1000) /\
  (get_target_for_client 5000 "203.0.113.9" demo_pool_hot).1.1 = Some "192.168.122.57".
Proof.
  assert (Hl : hot_vms demo_pool_hot !! "203.0.113.9" =
    Some (mkHot (mkVm "trap_3f9a1c2e" "192.168.122.57" "3f9a1c2e" (overlay_path "3f9a1c2e")) 1000))
    by reflexivity.
  split; [exact Hl|].
  exact (proj1 (get_target_sticky 5000 9000 "203.0.113.9" demo_pool_hot _ Hl)).
Defined.

(* ------------------------------------------------------------------ *)
(** *** C3 *)

(** C3 (capacity rejection): at [MAX_HOT_VMS] Hot sessions, a client
    without a session gets [None] and the pool is returned unchanged
    (no refill task either). *)
Theorem get_target_capacity now cip p :
  hot_count p = MAX_HOT_VMS -> hot_vms p !! cip = None ->
  get_target_for_client now cip p = (None, p, false).
Proof.
  intros Hc Hl. unfold get_target_for_client. rewrite Hl.
  unfold hot_count in Hc. rewrite decide_True by lia. done.
Qed.

Lemma get_target_capacity_witness :
  hot_count demo_pool_hot = MAX_HOT_VMS /\ hot_vms demo_pool_hot !! "198.51.100.4" = None /\
  get_target_for_client 2000 "198.51.100.4" demo_pool_hot = (None, demo_pool_hot, false).
Proof.
  assert (Hc : hot_count demo_pool_hot = MAX_HOT_VMS) by reflexivity.
  assert (Hl : hot_vms demo_pool_hot !! "198.51.100.4" = None) by reflexivity.
  split; [exact Hc|]. split; [exact Hl|].
  exact (get_target_capacity 2000 "198.51.100.4" demo_pool_hot Hc Hl).
Defined.

(* ------------------------------------------------------------------ *)
(** *** C10 *)

(** C10 (frame of the sticky path): for a client owning a Hot session,
    [get_target_for_client] leaves the warm slot, the set of clients and
    every other session unchanged, and the client's session keeps its VM
    record (domain handle, IP, id, disk); only [last_seen] becomes [now]. *)
Theorem get_target_sticky_frame now cip p h :
  hot_vms p !! cip = Some h ->
  let p' := (get_target_for_client now cip p).1.2 in
  warm_vm p' = warm_vm p /\
  base.dom (hot_vms p') = base.dom (hot_vms p) /\
  (forall c, c <> cip -> hot_vms p' !! c = hot_vms p !! c) /\
  hot_vms p' !! cip = Some (mkHot (vm h) now).
Proof.
  intros Hl. unfold get_target_for_client; rewrite Hl; simpl.
  split; [done|]. split.
  - rewrite dom_insert_L. apply elem_of_dom_2 in Hl. set_solver.
  - split; [intros c Hc; by rewrite lookup_insert_ne by congruence|].
    by rewrite lookup_insert_eq.
Qed.

Lemma get_target_sticky_frame_witness :
  hot_vms demo_pool_hot !! "203.0.113.9" =
    Some (mkHot (mkVm "trap_3f9a1c2e" "192.168.122.57" "3f9a1c2e" (overlay_path "3f9a1c2e")) 1000) /\
  warm_vm (get_target_for_client 7000 "203.0.113.9" demo_pool_hot).1.2 = None.
Proof.
  assert (Hl : hot_vms demo_pool_hot !! "203.0.113.9" =
    Some (mkHot (mkVm "trap_3f9a1c2e" "192.168.122.57" "3f9a1c2e" (overlay_path "3f9a1c2e")) 1000))
    by reflexivity.
  split; [exact Hl|].
  exact (proj1 (get_target_sticky_frame 7000 "203.0.113.9" demo_pool_hot _ Hl)).
Defined.

(* ------------------------------------------------------------------ *)
(** *** C4 *)

(** C4 (expiry, as amended): [cleanup_expired_sessions now force]
    removes exactly the sessions with [now - last_seen >
    PERSISTENCE_MINUTES] (all of them when [force]); the disk of each
    removed session no longer exists; its VM is no longer running unless
    [isActive()]/[destroy()] raises on it, in which case the error is
    swallowed and the VM stays as it was; every other session is kept as
    it was, [last_seen] included; the warm slot is untouched. *)
Theorem cleanup_expired_sessions_spec now force p e :
  let r := cleanup_expired_sessions now force p e in
  warm_vm r.1 = warm_vm p /\
  (forall cip h, hot_vms p !! cip = Some h ->
     if force || expired now h
     then hot_vms r.1 !! cip = None /\ (disk (vm h) ∉ disks r.2) /\
          (dom (vm h) ∉ faulty e -> dom (vm h) ∉ active r.2) /\
          (dom (vm h) ∈ faulty e -> (dom (vm h) ∈ active r.2 <-> dom (vm h) ∈ active e))
     else hot_vms r.1 !! cip = Some h) /\
  (forall cip, hot_vms p !! cip = None -> hot_vms r.1 !! cip = None).
Proof.
  unfold cleanup_expired_sessions.
  pose proof (remove_sessions_lookup (to_remove now force (hot_vms p)) (hot_vms p) e) as Hlk.
  pose proof (remove_sessions_cleans (to_remove now force (hot_vms p)) (hot_vms p) e) as Hcl.
  pose proof (remove_sessions_faulty_active (to_remove now force (hot_vms p)) (hot_vms p) e)
    as Hfa.
  destruct (remove_sessions _ _ _) as [hv e'] eqn:Hr; simpl in *.
  split; [done|]. split.
  - intros cip h Hl. specialize (Hlk cip). specialize (Hcl cip h).
    destruct (force || expired now h) eqn:Hx.
    + assert (Hin : cip ∈ to_remove now force (hot_vms p))
        by (apply elem_of_to_remove; eauto).
      rewrite decide_True in Hlk by done. destruct (Hcl Hin Hl) as [Hc1 Hc2].
      split; [done|]. split; [done|]. split; [done|]. apply Hfa.
    + assert (Hin : cip ∉ to_remove now force (hot_vms p)).
      { rewrite elem_of_to_remove. intros [h' [Hl' Hx']]. congruence. }
      rewrite decide_False in Hlk by done. by rewrite Hlk.
  - intros cip Hl. rewrite Hlk. by case_decide.
Qed.

Lemma cleanup_expired_sessions_spec_witness :
  hot_vms demo_pool_hot !! "203.0.113.9" =
    Some (mkHot (mkVm "trap_3f9a1c2e" "192.168.122.57" "3f9a1c2e" (overlay_path "3f9a1c2e")) 1000) /\
  hot_vms (cleanup_expired_sessions 600001001 false demo_pool_hot demo_env).1 !! "203.0.113.9"
    = None.
Proof.
  assert (Hl : hot_vms demo_pool_hot !! "203.0.113.9" =
    Some (mkHot (mkVm "trap_3f9a1c2e" "192.168.122.57" "3f9a1c2e" (overlay_path "3f9a1c2e")) 1000))
    by reflexivity.
  split; [exact Hl|].
  pose proof (proj1 (proj2 (cleanup_expired_sessions_spec 600001001 false demo_pool_hot demo_env))
                "203.0.113.9" _ Hl) as H.
  vm_compute in H. exact (proj1 H).
Defined.

(** C4 counterexample: the expired session of [demo_pool_hot] is
    removed and its disk deleted, but when [destroy()] raises on its
    domain the exception is swallowed and the VM keeps running. *)
Lemma cleanup_expired_sessions_destroy_fails :
  let r := cleanup_expired_sessions 600001001 false demo_pool_hot demo_env_stuck in
  hot_vms r.1 !! "203.0.113.9" = None /\ (overlay_path "3f9a1c2e" ∉ disks r.2) /\
  ("trap_3f9a1c2e" ∈ active r.2).
Proof.
  vm_compute. split; [reflexivity|]. split.
  - apply (bool_decide_unpack _). vm_compute. reflexivity.
  - apply (bool_decide_unpack _). vm_compute. reflexivity.
Qed.

(* ------------------------------------------------------------------ *)
(** *** C5 *)

(** C5 (provisioning failure), at a failing input: when [defineXML]
    raises, [ensure_warm_vm] logs the error and does not raise, but the
    overlay disk created before it is left on disk; when [create()]
    raises, the defined domain is left as well.  Only the guest-agent
    timeout path calls [cleanup_vm_entry]: there the disk is deleted and,
    on [demo_env] where [destroy()] does not raise, the domain stopped. *)
Theorem ensure_warm_vm_failure_leaves_disk :
  let rd := ensure_warm_vm "3f9a1c2e" (Raises FailDefine) empty_pool demo_env in
  let rc := ensure_warm_vm "3f9a1c2e" (Raises FailCreate) empty_pool demo_env in
  let rt := ensure_warm_vm "3f9a1c2e" (Boots None) empty_pool demo_env in
  warm_vm rd.1 = None /\ (overlay_path "3f9a1c2e" ∈ disks rd.2) /\
  last (log rd.2) = Some "[!] Error creating Warm VM" /\
  warm_vm rc.1 = None /\ (overlay_path "3f9a1c2e" ∈ disks rc.2) /\
  (trap_name "3f9a1c2e" ∈ defined rc.2) /\
  warm_vm rt.1 = None /\ (overlay_path "3f9a1c2e" ∉ disks rt.2) /\
  (trap_name "3f9a1c2e" ∉ active rt.2).
Proof.
  unfold ensure_warm_vm; simpl.
  repeat (case_decide as Hc; [exfalso; rewrite map_size_empty in Hc; cbv in Hc; lia|]).
  simpl. split; [done|]. split; [set_solver|]. split; [done|].
  split; [done|]. split; [set_solver|]. split; [set_solver|]. split; [done|].
  destruct (cleanup_vm_entry_removes (trap_name "3f9a1c2e") (overlay_path "3f9a1c2e")
    (env_log (booted_effect "3f9a1c2e" (env_log demo_env "[*] Creating new Warm VM..."))
       "[!] Warm VM timed out getting IP. Destroying.")).
  split; done.
Qed.

(* ------------------------------------------------------------------ *)
(** *** C6 *)

Lemma send_loop_sound fuel f k view :
  (length view <= fuel)%nat ->
  let '(r, d, calls) := send_loop fuel f k view in
  (r = SendEOFError <-> Some O ∈ calls) /\
  (r = SendOk -> d = view) /\
  (r = SendEOFError -> exists rest, view = d ++ rest /\ rest <> []).
Proof.
  revert k view. induction fuel as [|fuel IH]; intros k view Hlen.
  - destruct view; simpl in *; [|lia]. split; [split; [done|set_solver]|]. split; done.
  - destruct view as [|b bs] eqn:Hv; simpl.
    { split; [split; [done|set_solver]|]. split; done. }
    rewrite <- Hv. destruct (f k view) as [[|n]|] eqn:Hf.
    + split; [split; [intros _; set_solver|done]|]. split; [done|].
      intros _. exists view. subst. split; done.
    + specialize (IH (S k) (drop (S n) view)).
      destruct (send_loop fuel f (S k) (drop (S n) view)) as [[r d] calls].
      destruct IH as (H1 & H2 & H3).
      { rewrite length_drop. subst; simpl in *. lia. }
      split; [rewrite H1; set_solver|]. split.
      * intros Hr. rewrite (H2 Hr). apply take_drop.
      * intros Hr. destruct (H3 Hr) as [rest [Heq Hne]]. exists rest.
        split; [|done]. rewrite <- app_assoc, <- Heq. symmetry; apply take_drop.
    + split; [split; [done|set_solver]|]. split; done.
Qed.

Lemma send_loop_no_zero fuel (f : sender) k view :
  (forall j v, v <> [] -> exists n, f j v = Some n /\ (1 <= n)%nat) ->
  Some O ∉ (send_loop fuel f k view).2.
Proof.
  intros Hf. revert k view. induction fuel as [|fuel IH]; intros k view; simpl.
  - destruct view; set_solver.
  - destruct view as [|b bs] eqn:Hv; [set_solver|].
    destruct (Hf k (b :: bs) ltac:(done)) as [n [Hn Hle]]. rewrite Hn.
    destruct n as [|n]; [lia|].
    specialize (IH (S k) (drop (S n) (b :: bs))).
    destruct (send_loop fuel f (S k) (drop (S n) (b :: bs))) as [[r d] calls].
    simpl in *. set_solver.
Qed.

(** C6 (partial sends): for a send primitive that accepts between 1 and
    all of the remaining bytes on each call, [send_all] delivers the
    whole payload in order and succeeds.  For every send primitive,
    [send_all] raises [EOFError] exactly when one of its send calls
    accepted 0 bytes; it never reports success with bytes missing, and
    when it raises, what was delivered is a proper prefix of the payload. *)
Theorem send_all_partial_sends (f : sender) (data : list Byte.byte) :
  (forall k v, v <> [] -> exists n, f k v = Some n /\ (1 <= n <= length v)%nat) ->
  (send_all f data).1 = (SendOk, data) /\
  (forall (g : sender) (payload : list Byte.byte),
     let '(r, d, calls) := send_all g payload in
     (r = SendEOFError <-> Some O ∈ calls) /\
     (r = SendOk -> d = payload) /\
     (r = SendEOFError -> exists rest, payload = d ++ rest /\ rest <> [])).
Proof.
  intros Hf.
  assert (Hgen : forall (g : sender) (payload : list Byte.byte),
     let '(r, d, calls) := send_all g payload in
     (r = SendEOFError <-> Some O ∈ calls) /\
     (r = SendOk -> d = payload) /\
     (r = SendEOFError -> exists rest, payload = d ++ rest /\ rest <> [])).
  { intros g payload. unfold send_all. destruct payload as [|b bs] eqn:Hp.
    - split; [split; [done|set_solver]|]. split; done.
    - rewrite <- Hp. apply send_loop_sound. lia. }
  split; [|exact Hgen].
  specialize (Hgen f data).
  assert (Hnz : Some O ∉ (send_all f data).2).
  { unfold send_all. destruct data; [set_solver|].
    apply send_loop_no_zero. intros j v Hv. destruct (Hf j v Hv) as [n [Hn Hle]].
    exists n. split; [done|lia]. }
  destruct (send_all f data) as [[r d] calls]. simpl in *.
  destruct Hgen as (H1 & H2 & _). destruct r.
  - by rewrite (H2 eq_refl).
  - exfalso. apply Hnz. by apply H1.
Qed.

(** A channel accepting at most 7 bytes per call, and a 10 KB payload. *)
Definition accept7 : sender := fun _ v => Some (Nat.min 7 (length v)).
Definition payload_10k : list Byte.byte := repeat Byte.x41 (10 * 1024).

Lemma send_all_partial_sends_witness :
  (forall k v, v <> [] -> exists n, accept7 k v = Some n /\ (1 <= n <= length v)%nat) /\
  (send_all accept7 payload_10k).1 = (SendOk, payload_10k).
Proof.
  assert (H : forall k v, v <> [] -> exists n, accept7 k v = Some n /\ (1 <= n <= length v)%nat).
  { intros k v Hv. exists (Nat.min 7 (length v)). split; [reflexivity|].
    destruct v as [|b v]; [congruence|].
    destruct (Nat.min_spec 7 (length (b :: v))) as [[Hlt Hm]|[Hle Hm]]; rewrite Hm; simpl in *; lia. }
  split; [exact H|]. exact (proj1 (send_all_partial_sends accept7 payload_10k H)).
Defined.

(* ------------------------------------------------------------------ *)
(** *** C7 *)

(** The bytes of ["ls -la\r\nwhoami\r\n"]. *)
Definition keystroke_sample : list Byte.byte :=
  [Byte.x6c; Byte.x73; Byte.x20; Byte.x2d; Byte.x6c; Byte.x61; Byte.x0d; Byte.x0a;
   Byte.x77; Byte.x68; Byte.x6f; Byte.x61; Byte.x6d; Byte.x69; Byte.x0d; Byte.x0a].

Definition byte_cp (b : Byte.byte) : Z := Z.of_N (Byte.to_N b).

(** [str.isprintable] on ASCII code points. *)
Definition ascii_isprintable (c : Z) : bool := bool_decide (32 <= c <= 126).

Lemma write_truncated_responses_nil strip st :
  response_lines st = [] -> write_truncated_responses strip st = st.
Proof. destruct st as [b rb rl o]; simpl; intros ->; done. Qed.

(** [isprintable] is only consulted on characters other than CR, LF
    and DEL. *)
Definition consulted_same (p1 p2 : Z -> bool) (c : Z) : Prop :=
  c = 13 \/ c = 10 \/ c = 127 \/ p1 c = p2 c.

Lemma feed_key_ext p1 s1 p2 s2 st c :
  response_lines st = [] -> consulted_same p1 p2 c ->
  feed_key p1 s1 st c = feed_key p2 s2 st c /\ response_lines (feed_key p1 s1 st c) = [].
Proof.
  intros Hr Hp. unfold feed_key, flush_line.
  rewrite !write_truncated_responses_nil by done.
  destruct st as [b rb rl o]; simpl in *; subst.
  case_bool_decide as H1.
  { destruct b; [split; done|]. destruct (py_strip _); split; done. }
  case_bool_decide as H2; [split; done|].
  assert (Hpc : p1 c = p2 c) by (destruct Hp as [|[|[|]]]; [lia|lia|lia|done]).
  rewrite Hpc. destruct (p2 c); split; done.
Qed.

Lemma feed_text_ext p1 s1 p2 s2 st text :
  response_lines st = [] -> Forall (consulted_same p1 p2) text ->
  feed_text p1 s1 st text = feed_text p2 s2 st text.
Proof.
  unfold feed_text. revert st. induction text as [|c t IH]; intros st Hr Hf; [done|].
  apply Forall_cons in Hf as [Hc Ht]. simpl.
  destruct (feed_key_ext p1 s1 p2 s2 st c Hr Hc) as [-> Hr'].
  apply IH; [|done]. by destruct (feed_key_ext p1 s1 p2 s2 st c Hr Hc).
Qed.

Lemma elem_of_rev_1 (x : Z) l : x ∈ rev l -> x ∈ l.
Proof. induction l as [|a l IH]; simpl; [done|]. rewrite elem_of_app. set_solver. Qed.

Lemma elem_of_lstrip x l : x ∈ lstrip l -> x ∈ l.
Proof. induction l as [|a l IH]; simpl; [done|]. destruct (py_isspace a); set_solver. Qed.

Lemma elem_of_py_strip x l : x ∈ py_strip l -> x ∈ l.
Proof.
  unfold py_strip. intros H.
  apply elem_of_rev_1, elem_of_lstrip, elem_of_rev_1, elem_of_lstrip in H. done.
Qed.

Lemma elem_of_removelast (x : Z) l : x ∈ removelast l -> x ∈ l.
Proof.
  induction l as [|a l IH]; simpl; [done|].
  destruct l as [|b l]; [set_solver|]. rewrite elem_of_cons. intros [->|H]; set_solver.
Qed.

Definition no_del_inv (st : cmd_logger) : Prop :=
  (127 ∉ buffer st) /\ (forall l, LogCmd l ∈ out st -> 127 ∉ l).

Lemma write_truncated_responses_inv strip st :
  no_del_inv st -> no_del_inv (write_truncated_responses strip st).
Proof.
  unfold write_truncated_responses. destruct (response_lines st) as [|r rs]; [done|].
  intros [Hb Ho]. split; [done|]. simpl. intros l. rewrite elem_of_app.
  intros [H|H]; [by apply Ho|]. apply list_elem_of_In, in_map_iff in H.
  destruct H as [? [? _]]; done.
Qed.

Lemma feed_key_inv p s st c : no_del_inv st -> no_del_inv (feed_key p s st c).
Proof.
  intros Hinv. unfold feed_key.
  case_bool_decide as Hnl.
  - unfold flush_line. apply (write_truncated_responses_inv s) in Hinv.
    destruct (write_truncated_responses s st) as [b rb rl o]; simpl in *.
    destruct Hinv as [Hb Ho]. destruct b as [|x b]; [split; done|].
    split; [set_solver|]. simpl.
    destruct (py_strip (x :: b)) as [|y ys] eqn:Hs; [done|].
    intros l. rewrite elem_of_app, list_elem_of_singleton. intros [Hl|Hl]; [by apply Ho|].
    injection Hl as Heq. subst l. rewrite <- Hs. intros Hd. apply Hb, elem_of_py_strip, Hd.
  - case_bool_decide as Hbs.
    + destruct Hinv as [Hb Ho]. split; [|done]. simpl. intros Hd. apply Hb.
      by apply elem_of_removelast.
    + destruct (p c); [|done]. destruct Hinv as [Hb Ho]. split; [|done]. simpl.
      rewrite elem_of_app, list_elem_of_singleton. intros [Hd|Hd]; [done|]. congruence.
Qed.

Lemma feed_text_inv p s st text : no_del_inv st -> no_del_inv (feed_text p s st text).
Proof.
  unfold feed_text. revert st. induction text as [|c t IH]; intros st H; [done|].
  simpl. apply IH, feed_key_inv, H.
Qed.

(** C7 (keystroke log): feeding ["ls -la\r\nwhoami\r\n"] to a fresh
    [CommandLogger] logs exactly the command lines ["ls -la"] and
    ["whoami"], in that order (for any [decode], [isprintable] and
    [strip_ansi_codes] that behave as Python's do on ASCII); a backspace
    (0x7F) pops the last character of the pending buffer and changes
    nothing else; and after any sequence of payloads, no logged command
    line contains 0x7F. *)
Theorem feed_keystrokes_log (decode : list Byte.byte -> list Z) (isprintable : Z -> bool)
    (strip_ansi_codes : list Z -> list Z) :
  decode keystroke_sample = map byte_cp keystroke_sample ->
  (forall c, 32 <= c <= 126 -> isprintable c = true) ->
  out (feed_keystrokes decode isprintable strip_ansi_codes fresh_logger keystroke_sample)
    = [LogCmd (cps "ls -la"); LogCmd (cps "whoami")] /\
  (forall st, feed_key isprintable strip_ansi_codes st 127 =
     mkLogger (removelast (buffer st)) (response_buffer st) (response_lines st) (out st)) /\
  (forall payloads l,
     LogCmd l ∈ out (foldl (feed_keystrokes decode isprintable strip_ansi_codes)
                           fresh_logger payloads) ->
     127 ∉ l).
Proof.
  intros Hdec Hpr. split; [|split].
  - unfold feed_keystrokes. rewrite Hdec.
    rewrite (feed_text_ext isprintable strip_ansi_codes ascii_isprintable (fun x => x));
      [reflexivity|reflexivity|].
    apply Forall_forall. intros c Hc. cbn in Hc. unfold consulted_same.
    repeat (apply elem_of_cons in Hc as [->|Hc];
            [first [by left | by right; left | by do 3 right; rewrite Hpr by lia]|]).
    apply elem_of_nil in Hc as [].
  - intros st. unfold feed_key.
    rewrite bool_decide_false by lia. rewrite bool_decide_true by lia. done.
  - intros payloads.
    assert (Hi : no_del_inv (foldl (feed_keystrokes decode isprintable strip_ansi_codes)
                               fresh_logger payloads)).
    { assert (H0 : no_del_inv fresh_logger) by (split; simpl; set_solver).
      revert H0. generalize fresh_logger.
      induction payloads as [|pl ps IH]; intros st H0; simpl; [done|].
      apply IH. apply feed_text_inv, H0. }
    intros l Hl. by apply (proj2 Hi).
Qed.

(** Python's UTF-8 decoding with [errors="ignore"] on single-byte input:
    ASCII bytes decode to themselves, other lone bytes are dropped. *)
Definition decode_single_bytes (bs : list Byte.byte) : list Z :=
  map byte_cp (filter (fun b => (Byte.to_N b < 128)%N) bs).

Lemma feed_keystrokes_log_witness :
  decode_single_bytes keystroke_sample = map byte_cp keystroke_sample /\
  (forall c, 32 <= c <= 126 -> ascii_isprintable c = true) /\
  out (feed_keystrokes decode_single_bytes ascii_isprintable (fun l => l)
         fresh_logger keystroke_sample)
    = [LogCmd (cps "ls -la"); LogCmd (cps "whoami")].
Proof.
  assert (Hd : decode_single_bytes keystroke_sample = map byte_cp keystroke_sample)
    by reflexivity.
  assert (Hp : forall c, 32 <= c <= 126 -> ascii_isprintable c = true)
    by (intros c Hc; unfold ascii_isprintable; rewrite bool_decide_true by lia; reflexivity).
  split; [exact Hd|]. split; [exact Hp|].
  exact (proj1 (feed_keystrokes_log decode_single_bytes ascii_isprintable (fun l => l) Hd Hp)).
Defined.

(* ------------------------------------------------------------------ *)
(** *** C8 *)

(** C8, as stated, fails: with the reuse policy on, an attacker who
    logged in as ["admin"] with the empty password ([check_auth_password]
    records it) is not bridged with that pair: [if server.password:]
    treats [""] as absent and the static fallback is used. *)
Lemma resolve_backend_credentials_empty_password :
  let s := (check_auth_password "admin" "" fresh_server).2 in
  password s = Some "" /\
  (resolve_backend_credentials USE_ATTACKER_CREDENTIALS s).1 <> Some ("admin", "", None).
Proof. simpl. split; [reflexivity|]. vm_compute. congruence. Qed.

(** C8 (amended): with the reuse policy on, a non-empty captured username
    and a non-empty captured password are used as they are (no key path);
    a non-empty username whose password is missing (public-key login) or
    empty gives the static fallback [root]/[root], and the fallback is
    logged; with the policy off the static fallback is always used. *)
Theorem resolve_backend_credentials_spec :
  (forall s u pw, username s = Some u -> password s = Some pw -> u <> "" -> pw <> "" ->
     resolve_backend_credentials true s = (Some (u, pw, None), s)) /\
  (forall s u, username s = Some u -> u <> "" -> (password s = None \/ password s = Some "") ->
     resolve_backend_credentials true s =
       (Some (BACKEND_USERNAME, BACKEND_PASSWORD, BACKEND_KEY_PATH),
        mkServer (username s) (password s) (events s ++ [EvFallback]))) /\
  (forall u fp, u <> "" ->
     (resolve_backend_credentials true (check_auth_publickey u fp fresh_server).2).1 =
       Some ("root", "root", None)) /\
  (forall s, (resolve_backend_credentials false s).1 =
       Some (BACKEND_USERNAME, BACKEND_PASSWORD, BACKEND_KEY_PATH)).
Proof.
  assert (Htr : forall x, x <> "" -> truthy (Some x) = true).
  { intros x Hx. simpl. destruct (String.eqb_spec x ""); [done|reflexivity]. }
  split; [|split; [|split]].
  - intros s u pw Hu Hp Hu0 Hp0. unfold resolve_backend_credentials.
    rewrite Hu, Hp, (Htr u Hu0), (Htr pw Hp0). reflexivity.
  - intros s u Hu Hu0 Hp. unfold resolve_backend_credentials.
    rewrite Hu, (Htr u Hu0). simpl.
    destruct Hp as [-> | ->]; reflexivity.
  - intros u fp Hu0. unfold resolve_backend_credentials.
    cbn [check_auth_publickey fresh_server username password snd events].
    rewrite (Htr u Hu0). reflexivity.
  - intros s. reflexivity.
Qed.

Lemma resolve_backend_credentials_spec_witness :
  ("admin" <> "" /\ "hunter2" <> "") /\
  resolve_backend_credentials true (mkServer (Some "admin") (Some "hunter2") []) =
    (Some ("admin", "hunter2", None), mkServer (Some "admin") (Some "hunter2") []).
Proof.
  assert (Hu : "admin" <> "") by discriminate.
  assert (Hp : "hunter2" <> "") by discriminate.
  split; [split; [exact Hu|exact Hp]|].
  exact (proj1 resolve_backend_credentials_spec (mkServer (Some "admin") (Some "hunter2") [])
           "admin" "hunter2" eq_refl eq_refl Hu Hp).
Defined.

(* ------------------------------------------------------------------ *)
(** *** C9 *)

(** C9 (deceptive authentication): for every username and password, and
    every username and public key, the callbacks answer
    [AUTH_SUCCESSFUL] and record what was offered: the username, the
    password (password login) and a log event carrying the password or
    the key fingerprint in hex. *)
Theorem auth_always_succeeds :
  (forall u pw s,
     check_auth_password u pw s =
       (AUTH_SUCCESSFUL, mkServer (Some u) (Some pw) (events s ++ [EvAuthPassword u pw]))) /\
  (forall u fp s,
     check_auth_publickey u fp s =
       (AUTH_SUCCESSFUL,
        mkServer (Some u) (password s) (events s ++ [EvAuthPublickey u (bytes_hex fp)]))).
Proof. split; reflexivity. Qed.

(* ================================================================== *)
(** ** [strip_ansi_codes] *)

Lemma match_run_final_suffix cls l r :
  match_run_final cls l = Some r -> r `suffix_of` l /\ (length r < length l)%nat.
Proof.
  revert r; induction l as [|c l IH]; intros r H; simpl in H; [done|].
  destruct (cls c).
  - destruct (IH r H) as [Hs Hl]. split; [by apply suffix_cons_r|simpl; lia].
  - destruct (is_final c); [|done]. injection H as <-.
    split; [apply suffix_cons_r; done|simpl; lia].
Qed.

Lemma match_run_final_app cls ps f b :
  Forall (fun c => cls c = true) ps -> cls f = false -> is_final f = true ->
  match_run_final cls (ps ++ f :: b) = Some b.
Proof.
  intros Hps Hf Hfin. induction Hps as [|p ps Hp _ IH]; simpl.
  - by rewrite Hf, Hfin.
  - by rewrite Hp.
Qed.

Lemma match_esc_csi_suffix l r :
  match_esc_csi l = Some r -> r `suffix_of` l /\ (length r < length l)%nat.
Proof.
  unfold match_esc_csi. destruct l as [|c [|d l]]; try done.
  case_bool_decide; [|done]. intros Hm.
  destruct (match_run_final_suffix _ _ _ Hm) as [Hs Hl].
  split; [do 2 apply suffix_cons_r; done|simpl; lia].
Qed.

Lemma match_bare_csi_suffix l r :
  match_bare_csi l = Some r -> r `suffix_of` l /\ (length r < length l)%nat.
Proof.
  unfold match_bare_csi. destruct l as [|c l]; [done|].
  case_bool_decide; [|done]. destruct l as [|q l]; [done|].
  assert (Hq : match_run_final is_digit_semi (q :: l) = Some r ->
               r `suffix_of` c :: q :: l /\ (length r < length (c :: q :: l))%nat).
  { intros Hm. destruct (match_run_final_suffix _ _ _ Hm) as [Hs Hl].
    split; [apply suffix_cons_r; done|simpl in *; lia]. }
  case_bool_decide; [|exact Hq].
  destruct (match_run_final is_digit_semi l) eqn:E; [|exact Hq].
  intros [= <-]. destruct (match_run_final_suffix _ _ _ E) as [Hs Hl].
  split; [do 2 apply suffix_cons_r; done|simpl; lia].
Qed.

Section ReSub.
Variable m : list Z -> option (list Z).
Hypothesis m_suffix : forall l r, m l = Some r -> r `suffix_of` l /\ (length r < length l)%nat.

Lemma re_sub_fuel_irrel f1 f2 l :
  (length l <= f1)%nat -> (length l <= f2)%nat -> re_sub_fuel m f1 l = re_sub_fuel m f2 l.
Proof.
  revert f2 l; induction f1 as [|f1 IH]; intros f2 l H1 H2.
  - destruct l; [|simpl in H1; lia]. destruct f2; reflexivity.
  - destruct f2 as [|f2]; [destruct l; [reflexivity|simpl in H2; lia]|].
    destruct l as [|c r]; [reflexivity|]. simpl in *.
    destruct (m (c :: r)) as [rest|] eqn:E.
    + destruct (m_suffix _ _ E) as [_ Hl]. simpl in Hl. apply IH; lia.
    + f_equal. apply IH; lia.
Qed.

Lemma re_sub_nil : re_sub m [] = [].
Proof. reflexivity. Qed.

Lemma re_sub_cons c r :
  re_sub m (c :: r) =
  match m (c :: r) with Some rest => re_sub m rest | None => c :: re_sub m r end.
Proof.
  unfold re_sub at 1. simpl. destruct (m (c :: r)) as [rest|] eqn:E.
  - destruct (m_suffix _ _ E) as [_ Hl]. simpl in Hl.
    unfold re_sub. apply re_sub_fuel_irrel; lia.
  - reflexivity.
Qed.

Lemma re_sub_sublist l : re_sub m l `sublist_of` l.
Proof.
  induction l as [l IH] using (induction_ltof1 _ (@length Z)); unfold ltof in IH.
  destruct l as [|c r]; [rewrite re_sub_nil; constructor|].
  rewrite re_sub_cons. destruct (m (c :: r)) as [rest|] eqn:E.
  - destruct (m_suffix _ _ E) as [[k Hk] Hl].
    etrans; [apply IH; exact Hl|]. rewrite Hk. by apply sublist_inserts_l.
  - constructor. apply IH. simpl; lia.
Qed.

Lemma re_sub_app_plain a l :
  (forall c r, c ∈ a -> m (c :: r) = None) -> re_sub m (a ++ l) = a ++ re_sub m l.
Proof.
  induction a as [|c a IH]; intros Ha; [reflexivity|].
  simpl. rewrite re_sub_cons, Ha by (left). f_equal.
  apply IH. intros c' r Hc. apply Ha. by right.
Qed.

Lemma re_sub_id l : (forall s, s `suffix_of` l -> m s = None) -> re_sub m l = l.
Proof.
  induction l as [|c r IH]; intros Hs; [reflexivity|].
  rewrite re_sub_cons, Hs by reflexivity. f_equal.
  apply IH. intros s Hsuf. apply Hs. by apply suffix_cons_r.
Qed.
End ReSub.

Lemma match_esc_csi_bracket s : match_esc_csi s <> None -> 91 ∈ s.
Proof.
  unfold match_esc_csi. destruct s as [|c [|d s]]; try done.
  case_bool_decide as Hc; [|done]. destruct Hc as [_ ->]. intros _. right. left.
Qed.

Lemma match_bare_csi_bracket s : match_bare_csi s <> None -> 91 ∈ s.
Proof.
  unfold match_bare_csi. destruct s as [|c s]; [done|].
  case_bool_decide as Hc; [|done]. subst. intros _. left.
Qed.

Lemma re_sub_no_bracket m l :
  (forall l r, m l = Some r -> r `suffix_of` l /\ (length r < length l)%nat) ->
  (forall s, m s <> None -> 91 ∈ s) -> 91 ∉ l -> re_sub m l = l.
Proof.
  intros Hsuf Hm Hl. apply re_sub_id; [exact Hsuf|]. intros s Hs.
  destruct (m s) eqn:E; [|done]. exfalso. apply Hl.
  eapply elem_of_suffix; [apply Hm; by rewrite E|exact Hs].
Qed.

Definition plain (l : list Z) : Prop := Forall (fun c => c <> 27 /\ c <> 91) l.

Lemma final_not_param f : is_final f = true -> is_param f = false /\ is_digit_semi f = false.
Proof.
  unfold is_final, is_param, is_digit_semi. intros Hf.
  apply bool_decide_eq_true in Hf.
  rewrite !bool_decide_eq_false_2 by lia. done.
Qed.

Lemma esc_none_head c r : c <> 27 -> match_esc_csi (c :: r) = None.
Proof. intros Hc. unfold match_esc_csi. destruct r; [done|]. case_bool_decide; [lia|done]. Qed.

Lemma bare_none_head c r : c <> 91 -> match_bare_csi (c :: r) = None.
Proof. intros Hc. unfold match_bare_csi. case_bool_decide; [lia|done]. Qed.

Lemma re_sub_esc_no_esc l : (forall c, c ∈ l -> c <> 27) -> re_sub match_esc_csi l = l.
Proof.
  intros Hl. rewrite <- (app_nil_r l) at 1.
  rewrite re_sub_app_plain; [by rewrite app_nil_r|exact match_esc_csi_suffix|].
  intros c r Hc. by apply esc_none_head, Hl.
Qed.

Lemma re_sub_bare_plain l : plain l -> re_sub match_bare_csi l = l.
Proof.
  intros Hl. rewrite <- (app_nil_r l) at 1.
  rewrite re_sub_app_plain; [by rewrite app_nil_r|exact match_bare_csi_suffix|].
  intros c r Hc. apply bare_none_head. unfold plain in Hl. rewrite Forall_forall in Hl.
  by apply Hl.
Qed.

Lemma plain_no_esc l : plain l -> forall c, c ∈ l -> c <> 27.
Proof. unfold plain. rewrite Forall_forall. intros Hl c Hc. by apply Hl. Qed.

(** X1: [strip_ansi_codes] only deletes characters: its result is a
    subsequence of its input. *)
Theorem strip_ansi_codes_sublist text : strip_ansi_codes text `sublist_of` text.
Proof.
  unfold strip_ansi_codes.
  etrans; [apply re_sub_sublist, match_bare_csi_suffix|].
  etrans; [apply re_sub_sublist, match_esc_csi_suffix|].
  apply re_sub_sublist, match_esc_csi_suffix.
Qed.

(** X2: a text without a ['['] is returned unchanged by [strip_ansi_codes]. *)
Theorem strip_ansi_codes_no_bracket text :
  91 ∉ text -> strip_ansi_codes text = text.
Proof.
  intros Ht. unfold strip_ansi_codes.
  assert (He : re_sub match_esc_csi text = text)
    by (apply re_sub_no_bracket; [exact match_esc_csi_suffix|exact match_esc_csi_bracket|done]).
  rewrite !He.
  apply re_sub_no_bracket; [exact match_bare_csi_suffix|exact match_bare_csi_bracket|done].
Qed.

Lemma strip_ansi_codes_no_bracket_witness :
  (91 ∉ cps "ls -la /tmp") /\ strip_ansi_codes (cps "ls -la /tmp") = cps "ls -la /tmp".
Proof.
  assert (H : 91 ∉ cps "ls -la /tmp") by (apply (bool_decide_unpack _); vm_compute; reflexivity).
  split; [exact H|]. apply (strip_ansi_codes_no_bracket (cps "ls -la /tmp")). exact H.
Defined.

(** X3: between two pieces of text free of ESC and ['['], one escape
    sequence [ESC [ params final], one [[ digits final] or one
    [[? digits final] is removed and nothing else changes; since letters
    are finals, this includes ordinary bracketed words such as [[hello]]. *)
Theorem strip_ansi_codes_removes_sequence a b qs ps f :
  plain a -> plain b -> is_final f = true ->
  Forall (fun c => is_param c = true) qs -> Forall (fun c => is_digit_semi c = true) ps ->
  strip_ansi_codes (a ++ [27; 91] ++ qs ++ f :: b) = a ++ b /\
  strip_ansi_codes (a ++ 91 :: ps ++ f :: b) = a ++ b /\
  strip_ansi_codes (a ++ [91; 63] ++ ps ++ f :: b) = a ++ b.
Proof.
  intros Ha Hb Hf Hqs Hps. destruct (final_not_param f Hf) as [Hfp Hfd].
  assert (Hab : plain (a ++ b)) by (unfold plain; apply Forall_app; done).
  assert (Hesc_a : forall c r, c ∈ a -> match_esc_csi (c :: r) = None)
    by (intros c r Hc; by apply esc_none_head, (plain_no_esc a)).
  assert (Hbare_a : forall c r, c ∈ a -> match_bare_csi (c :: r) = None).
  { intros c r Hc. apply bare_none_head. unfold plain in Ha. rewrite Forall_forall in Ha.
    by apply Ha. }
  assert (Hf27 : f <> 27 /\ f <> 91 /\ f <> 63).
  { unfold is_final in Hf. apply bool_decide_eq_true in Hf. lia. }
  assert (Hps27 : forall c, c ∈ ps -> c <> 27 /\ c <> 91 /\ c <> 63).
  { intros c Hc. rewrite Forall_forall in Hps. specialize (Hps c Hc).
    unfold is_digit_semi in Hps. apply bool_decide_eq_true in Hps. lia. }
  assert (Hnoesc : forall pre, (forall c, c ∈ pre -> c <> 27) ->
            forall c, c ∈ a ++ pre ++ ps ++ f :: b -> c <> 27).
  { intros pre Hpre c Hc. rewrite !elem_of_app, elem_of_cons in Hc.
    destruct Hc as [Hc|[Hc|[Hc|[->|Hc]]]].
    - by apply (plain_no_esc a).
    - by apply Hpre.
    - by apply Hps27.
    - lia.
    - by apply (plain_no_esc b). }
  split; [|split].
  - unfold strip_ansi_codes.
    rewrite (re_sub_app_plain _ match_esc_csi_suffix a _ Hesc_a).
    change ([27; 91] ++ qs ++ f :: b) with (27 :: 91 :: qs ++ f :: b).
    rewrite re_sub_cons by exact match_esc_csi_suffix.
    assert (Hm : match_esc_csi (27 :: 91 :: qs ++ f :: b) = Some b).
    { unfold match_esc_csi. rewrite bool_decide_true by lia. by apply match_run_final_app. }
    rewrite Hm.
    rewrite (re_sub_esc_no_esc b (plain_no_esc b Hb)).
    rewrite (re_sub_esc_no_esc (a ++ b) (plain_no_esc _ Hab)).
    apply re_sub_bare_plain, Hab.
  - unfold strip_ansi_codes.
    rewrite !(re_sub_esc_no_esc (a ++ 91 :: ps ++ f :: b))
      by (apply (Hnoesc [91]); intros c Hc; rewrite list_elem_of_singleton in Hc; lia).
    rewrite (re_sub_app_plain _ match_bare_csi_suffix a _ Hbare_a).
    rewrite re_sub_cons by exact match_bare_csi_suffix.
    assert (Hm : match_bare_csi (91 :: ps ++ f :: b) = Some b).
    { unfold match_bare_csi. rewrite bool_decide_true by done.
      destruct (ps ++ f :: b) as [|q r'] eqn:E; [by destruct ps|].
      rewrite bool_decide_false.
      - rewrite <- E. by apply match_run_final_app.
      - destruct ps as [|p ps']; simpl in E; injection E as <- _.
        + lia.
        + destruct (Hps27 p (list_elem_of_here _ _)) as [_ [_ ?]]. done. }
    rewrite Hm. f_equal. by apply re_sub_bare_plain.
  - unfold strip_ansi_codes.
    rewrite !(re_sub_esc_no_esc (a ++ [91; 63] ++ ps ++ f :: b))
      by (apply (Hnoesc [91; 63]); intros c Hc;
          rewrite elem_of_cons, list_elem_of_singleton in Hc; lia).
    rewrite (re_sub_app_plain _ match_bare_csi_suffix a _ Hbare_a).
    change ([91; 63] ++ ps ++ f :: b) with (91 :: 63 :: ps ++ f :: b).
    rewrite re_sub_cons by exact match_bare_csi_suffix.
    assert (Hm : match_bare_csi (91 :: 63 :: ps ++ f :: b) = Some b).
    { unfold match_bare_csi. rewrite !bool_decide_true by done.
      by rewrite (match_run_final_app _ ps f b Hps Hfd Hf). }
    rewrite Hm. f_equal. by apply re_sub_bare_plain.
Qed.

Lemma strip_ansi_codes_removes_sequence_witness :
  strip_ansi_codes (cps "[hello]") = cps "ello]".
Proof.
  assert (Hb : plain (cps "ello]")) by (repeat constructor; cbv; congruence).
  destruct (strip_ansi_codes_removes_sequence [] (cps "ello]") [] [] 104
              (Forall_nil_2 _) Hb eq_refl (Forall_nil_2 _) (Forall_nil_2 _)) as [_ [H _]].
  exact H.
Defined.

(* ================================================================== *)
(** ** [CommandLogger]: truncation, flushing and the response side *)

(** Helper: the statement of the theorem below, shared with later proofs. *)
Lemma write_truncated_responses_spec_aux strip st :
  let st' := write_truncated_responses strip st in
  let rl := response_lines st in
  buffer st' = buffer st /\ response_buffer st' = response_buffer st /\
  response_lines st' = [] /\
  exists resp, out st' = out st ++ map LogResp resp /\ (length resp <= 11)%nat /\
    ((length rl <= 10)%nat -> resp = map strip rl) /\
    ((10 < length rl)%nat ->
       take 8 resp = take 8 (map strip rl) /\ resp !! 8%nat = Some (cps "...") /\
       drop 9 resp = drop (length rl - 2) (map strip rl)).
Proof.
  cbv zeta. unfold write_truncated_responses.
  destruct (response_lines st) as [|l ls] eqn:E.
  - split; [done|]. split; [done|]. split; [done|].
    exists []. rewrite app_nil_r. simpl. split; [done|]. split; [lia|].
    split; [done|]. lia.
  - cbv beta iota zeta. cbn [buffer response_buffer response_lines out].
    split; [done|]. split; [done|]. split; [done|].
    set (cl := map strip (l :: ls)).
    assert (Hcl : length cl = length (l :: ls)) by (unfold cl; rewrite length_map; done).
    rewrite <- Hcl.
    case_decide as Hle.
    + exists cl. split; [done|]. split; [lia|]. split; [done|]. lia.
    + exists (take (10 - 2) cl ++ [cps "..."] ++ drop (length cl - 2) cl).
      split; [done|].
      assert (Ht : length (take (10 - 2) cl) = 8%nat)
        by (rewrite length_take; apply Nat.min_l; lia).
      split.
      { rewrite !length_app, Ht, length_drop. simpl. lia. }
      split; [intros; lia|]. intros _.
      split; [|split].
      * rewrite take_app_le by lia. rewrite take_take. f_equal.
      * rewrite lookup_app_r by lia. rewrite Ht. done.
      * rewrite drop_app_ge by lia. rewrite Ht. done.
Qed.

(** X4: [_write_truncated_responses] empties the stored response lines
    and logs at most 11 of them as [RESP] entries: all of them (ANSI
    stripped) when there are at most 10, otherwise the first 8, a ["..."]
    line and the last 2.  The keystroke buffer and the partial response
    line are left alone. *)
Theorem write_truncated_responses_spec strip st :
  let st' := write_truncated_responses strip st in
  let rl := response_lines st in
  buffer st' = buffer st /\ response_buffer st' = response_buffer st /\
  response_lines st' = [] /\
  exists resp, out st' = out st ++ map LogResp resp /\ (length resp <= 11)%nat /\
    ((length rl <= 10)%nat -> resp = map strip rl) /\
    ((10 < length rl)%nat ->
       take 8 resp = take 8 (map strip rl) /\ resp !! 8%nat = Some (cps "...") /\
       drop 9 resp = drop (length rl - 2) (map strip rl)).
Proof. exact (write_truncated_responses_spec_aux strip st). Qed.

Lemma write_truncated_out_prefix strip st :
  out st `prefix_of` out (write_truncated_responses strip st).
Proof.
  unfold write_truncated_responses. destruct (response_lines st); simpl; [done|].
  by apply prefix_app_r.
Qed.

(** Helper: the statement of the theorem below, shared with later proofs. *)
Lemma logger_flush_spec_aux strip st :
  let st' := logger_flush strip st in
  buffer st' = [] /\ response_lines st' = [] /\
  response_buffer st' = response_buffer st /\ out st `prefix_of` out st'.
Proof.
  cbv zeta. unfold logger_flush, flush_line. cbv zeta.
  pose proof (write_truncated_responses_spec_aux strip st) as (Hb & Hrb & Hrl & _).
  pose proof (write_truncated_out_prefix strip st) as Hp.
  destruct (write_truncated_responses strip st) as [b rb rl o] eqn:E.
  cbn [buffer response_buffer response_lines out] in *. subst rl.
  destruct b as [|c b].
  - rewrite write_truncated_responses_nil by done.
    cbn [buffer response_buffer response_lines out]. done.
  - rewrite write_truncated_responses_nil by done.
    cbn [buffer response_buffer response_lines out].
    split; [done|]. split; [done|]. split; [done|].
    destruct (py_strip (c :: b)); [done|]. etrans; [exact Hp|]. by apply prefix_app_r.
Qed.




(* ================================================================== *)
(** ** [VMManager.get_vm_ip] *)

(** X7: the address picked from a guest-agent report is an IPv4 address
    of one of the reported interfaces and never [127.0.0.1]; no address
    is picked exactly when every reported address is non-IPv4 or the
    loopback address. *)
Theorem first_ipv4_spec ifaces :
  (forall a, first_ipv4 ifaces = Some a ->
     a <> "127.0.0.1" /\
     exists name addrs, ((name, addrs) ∈ ifaces) /\ (mkAddr VIR_IP_ADDR_TYPE_IPV4 a ∈ addrs)) /\
  (first_ipv4 ifaces = None <->
     forall name addrs x, (name, addrs) ∈ ifaces -> x ∈ addrs ->
       addr_type x <> VIR_IP_ADDR_TYPE_IPV4 \/ addr x = "127.0.0.1").
Proof.
  unfold first_ipv4.
  set (sel := fun '((_, addrs) : string * list if_addr) =>
         filter (fun a => addr_type a = VIR_IP_ADDR_TYPE_IPV4 /\ addr a <> "127.0.0.1") addrs
         ≫= (fun a => [addr a])).
  assert (Hmem : forall a, a ∈ ifaces ≫= sel <->
            exists name addrs x, ((name, addrs) ∈ ifaces) /\ (x ∈ addrs) /\
              addr_type x = VIR_IP_ADDR_TYPE_IPV4 /\ addr x <> "127.0.0.1" /\ a = addr x).
  { intros a. rewrite list_elem_of_bind. split.
    - intros [[name addrs] [Ha Hi]]. unfold sel in Ha.
      rewrite list_elem_of_bind in Ha. destruct Ha as [x [Hx Hf]].
      rewrite list_elem_of_singleton in Hx. apply list_elem_of_filter in Hf as [[Ht Hn] Hf].
      exists name, addrs, x. done.
    - intros (name & addrs & x & Hi & Hx & Ht & Hn & ->). exists (name, addrs).
      split; [|done]. unfold sel. rewrite list_elem_of_bind. exists x.
      split; [by apply list_elem_of_singleton|]. by apply list_elem_of_filter. }
  split.
  - intros a Hh. assert (Ha : a ∈ ifaces ≫= sel).
    { destruct (ifaces ≫= sel) eqn:E; [done|]. simpl in Hh. injection Hh as ->. left. }
    apply Hmem in Ha as (name & addrs & x & Hi & Hx & Ht & Hn & ->).
    split; [done|]. exists name, addrs. destruct x as [t v]. simpl in *. subst t. done.
  - split.
    + intros Hh name addrs x Hi Hx.
      destruct (decide (addr_type x = VIR_IP_ADDR_TYPE_IPV4)) as [Ht|Ht]; [|by left].
      destruct (decide (addr x = "127.0.0.1")) as [Hn|Hn]; [by right|].
      exfalso. assert (Ha : addr x ∈ ifaces ≫= sel) by (apply Hmem; eauto 10).
      destruct (ifaces ≫= sel); [set_solver|done].
    + intros Hall. destruct (ifaces ≫= sel) as [|a l] eqn:E; [done|].
      exfalso. assert (Ha : a ∈ a :: l) by left.
      apply Hmem in Ha as (name & addrs & x & Hi & Hx & Ht & Hn & _).
      destruct (Hall name addrs x Hi Hx); done.
Qed.

Lemma sleeping_attempts_le obs i n : (sleeping_attempts obs i n <= n)%nat.
Proof.
  revert i; induction n as [|n IH]; intros i; simpl; [lia|].
  destruct (obs i); specialize (IH (S i)); lia.
Qed.

(** An attempt that sleeps one second and moves on. *)
Ltac poll_sleep_case IH Ho :=
  lazymatch goal with
  | |- match poll_attempts ?obs (S ?i) ?n (?s + 1) with _ => _ end =>
      specialize (IH (S i) (s + 1));
      destruct (poll_attempts obs (S i) n (s + 1)) as [[?a|] ?s'];
      [ let j := fresh "j" in let Hj := fresh "Hj" in let Ha := fresh "Ha" in
        let Hb := fresh "Hb" in
        destruct IH as (j & Hj & Ha & Hb & ->); exists j;
        split; [lia|]; split; [done|]; split;
        [ let j' := fresh "j'" in
          intros j' ?; destruct (decide (j' = i)) as [->|];
          [unfold usable_at; by rewrite Ho|apply Hb; lia]
        | replace (j - i)%nat with (S (j - S i)) by lia; simpl; try rewrite Ho; lia ]
      | let Hn := fresh "Hn" in
        destruct IH as [Hn ->]; split;
        [ let j := fresh "j" in
          intros j ?; destruct (decide (j = i)) as [->|];
          [unfold usable_at; by rewrite Ho|apply Hn; lia]
        | simpl; try rewrite Ho; lia ] ]
  end.

Lemma poll_attempts_spec obs i n s :
  match poll_attempts obs i n s with
  | (None, s') =>
      (forall j, (i <= j < i + n)%nat -> usable_at obs j = None) /\
      s' = s + Z.of_nat (sleeping_attempts obs i n)
  | (Some a, s') =>
      exists j, (i <= j < i + n)%nat /\ usable_at obs j = Some a /\
        (forall j', (i <= j' < j)%nat -> usable_at obs j' = None) /\
        s' = s + Z.of_nat (sleeping_attempts obs i (j - i))
  end.
Proof.
  revert i s; induction n as [|n IH]; intros i s; simpl.
  - split; [intros; lia|lia].
  - unfold usable_at at 1.
    destruct (obs i) as [| | |ifs] eqn:Ho; [poll_sleep_case IH Ho..|].
    destruct (first_ipv4 ifs) as [a|] eqn:Hf.
    + exists i. split; [lia|]. split; [unfold usable_at; by rewrite Ho|].
      split; [intros; lia|]. rewrite Nat.sub_diag. simpl. lia.
    + specialize (IH (S i) s).
      destruct (poll_attempts obs (S i) n s) as [[a|] s'].
      * destruct IH as (j & Hj & Ha & Hb & ->). exists j.
        split; [lia|]. split; [done|]. split.
        { intros j' Hj'. destruct (decide (j' = i)) as [->|].
          - unfold usable_at. by rewrite Ho.
          - apply Hb; lia. }
        replace (j - i)%nat with (S (j - S i)) by lia. simpl. rewrite Ho. lia.
      * destruct IH as [Hn ->]. split.
        { intros j Hj. destruct (decide (j = i)) as [->|].
          - unfold usable_at. by rewrite Ho.
          - apply Hn; lia. }
        simpl. try rewrite Ho. lia.
Qed.

(** X8: [get_vm_ip] returns the address of the first of its 60 attempts
    whose guest-agent report has a usable address, and [None] exactly
    when no attempt has one; it sleeps 10 seconds plus one second per
    attempt that found the VM inactive or got an error (reports without a
    usable address do not sleep), so between 10 and 70 seconds in all. *)
Theorem get_vm_ip_spec obs :
  let r := get_vm_ip obs in
  (r.1 = None <-> forall k, (k < 60)%nat -> usable_at obs k = None) /\
  (forall a, r.1 = Some a ->
     exists k, (k < 60)%nat /\ usable_at obs k = Some a /\
       (forall j, (j < k)%nat -> usable_at obs j = None) /\
       r.2 = 10 + Z.of_nat (sleeping_attempts obs 0 k)) /\
  (r.1 = None -> r.2 = 10 + Z.of_nat (sleeping_attempts obs 0 60)) /\
  10 <= r.2 <= 70.
Proof.
  cbv zeta. unfold get_vm_ip.
  pose proof (poll_attempts_spec obs 0 60 10) as H.
  destruct (poll_attempts obs 0 60 10) as [[a|] s] eqn:E; cbn [fst snd].
  - destruct H as (j & Hj & Ha & Hb & ->).
    split; [split; [done|intros Hn; specialize (Hn j ltac:(lia)); congruence]|].
    split.
    { intros a' [= <-]. exists j. split; [lia|]. split; [done|]. split; [intros; apply Hb; lia|].
      by rewrite Nat.sub_0_r. }
    split; [done|].
    pose proof (sleeping_attempts_le obs 0 (j - 0)). lia.
  - destruct H as [Hn ->].
    split; [split; [intros _ k Hk; apply Hn; lia|done]|].
    split; [done|]. split; [done|].
    pose proof (sleeping_attempts_le obs 0 60). lia.
Qed.

(* ================================================================== *)
(** ** Channel requests and [open_backend_channel] *)

Lemma handle_requests_app st rs1 rs2 :
  handle_requests st (rs1 ++ rs2) = handle_requests (handle_requests st rs1) rs2.
Proof. unfold handle_requests. by rewrite foldl_app. Qed.

Lemma handle_requests_no_exec st rs :
  no_exec rs -> exec_command (handle_requests st rs) = exec_command st.
Proof.
  revert st; induction rs as [|r rs IH]; intros st Hn; [done|].
  unfold handle_requests; simpl; fold (handle_requests (handle_request st r).2 rs).
  rewrite IH by (intros c Hc; apply (Hn c); by right).
  destruct r as [|c|p]; simpl; [done| |done].
  exfalso. apply (Hn c). left.
Qed.

Lemma handle_requests_no_pty st rs :
  no_pty rs -> pty_params (handle_requests st rs) = pty_params st.
Proof.
  revert st; induction rs as [|r rs IH]; intros st Hn; [done|].
  unfold handle_requests; simpl; fold (handle_requests (handle_request st r).2 rs).
  rewrite IH by (intros c Hc; apply (Hn c); by right).
  destruct r as [|c|p]; simpl; [done|done|].
  exfalso. apply (Hn p). left.
Qed.

Lemma handle_requests_exec_cases st rs :
  (no_exec rs /\ exec_command (handle_requests st rs) = exec_command st) \/
  exists c, last_exec rs c /\ exec_command (handle_requests st rs) = Some c.
Proof.
  induction rs as [|r rs IH] using rev_ind.
  - left. split; [intros c Hc; set_solver|done].
  - rewrite handle_requests_app. unfold handle_requests at 1. simpl.
    destruct r as [|c|p]; simpl.
    + destruct IH as [[Hn Hc]|(c & (rs1 & rs2 & -> & Hn) & Hc)].
      * left. split; [|done]. intros c Hin. apply elem_of_app in Hin as [Hin|Hin].
        -- by apply (Hn c).
        -- set_solver.
      * right. exists c. split; [|done]. exists rs1, (rs2 ++ [ReqShell]).
        split; [by rewrite <- app_assoc|]. intros c' Hin.
        apply elem_of_app in Hin as [Hin|Hin]; [by apply (Hn c')|set_solver].
    + right. exists c. split; [|done]. exists rs, []. split; [done|]. intros c' Hin; set_solver.
    + destruct IH as [[Hn Hc]|(c & (rs1 & rs2 & -> & Hn) & Hc)].
      * left. split; [|done]. intros c Hin. apply elem_of_app in Hin as [Hin|Hin].
        -- by apply (Hn c).
        -- set_solver.
      * right. exists c. split; [|done]. exists rs1, (rs2 ++ [ReqPty p]).
        split; [by rewrite <- app_assoc|]. intros c' Hin.
        apply elem_of_app in Hin as [Hin|Hin]; [by apply (Hn c')|set_solver].
Qed.

Lemma handle_requests_pty_cases st rs :
  (no_pty rs /\ pty_params (handle_requests st rs) = pty_params st) \/
  exists p, last_pty rs p /\ pty_params (handle_requests st rs) = Some p.
Proof.
  induction rs as [|r rs IH] using rev_ind.
  - left. split; [intros p Hp; set_solver|done].
  - rewrite handle_requests_app. unfold handle_requests at 1. simpl.
    destruct r as [|c|p]; simpl.
    1,2: destruct IH as [[Hn Hc]|(p & (rs1 & rs2 & -> & Hn) & Hc)];
      [left; split; [|done]; intros p Hin; apply elem_of_app in Hin as [Hin|Hin];
         [by apply (Hn p)|set_solver]
      |right; exists p; split; [|done];
       eexists rs1, (rs2 ++ [_]); split; [by rewrite <- app_assoc|]; intros p' Hin;
       apply elem_of_app in Hin as [Hin|Hin]; [by apply (Hn p')|set_solver]].
    + right. exists p. split; [|done]. exists rs, []. split; [done|]. intros p' Hin; set_solver.
Qed.

Lemma handle_requests_ready st rs :
  channel_ready (handle_requests st rs) = true <->
  channel_ready st = true \/ ReqShell ∈ rs \/ exists c, ReqExec c ∈ rs.
Proof.
  revert st; induction rs as [|r rs IH]; intros st.
  - split; [by left|]. intros [H|[H|[c H]]]; [done|set_solver|set_solver].
  - unfold handle_requests; simpl; fold (handle_requests (handle_request st r).2 rs).
    rewrite IH. destruct r as [|c|p]; simpl.
    + split; [intros _; right; left; left|intros _; by left].
    + split; [intros _; right; right; exists c; left|intros _; by left].
    + split.
      * intros [H|[H|[c H]]]; [by left|right; left; by right|right; right; exists c; by right].
      * intros [H|[H|[c H]]]; [by left| |].
        -- apply elem_of_cons in H as [H|H]; [done|by right; left].
        -- apply elem_of_cons in H as [H|H]; [done|right; right; by exists c].
Qed.

(** Helper: the statement of the theorem below, shared with later proofs. *)
Lemma handle_requests_spec_aux rs :
  let st := handle_requests fresh_chan rs in
  (channel_ready st = true <-> ReqShell ∈ rs \/ exists c, ReqExec c ∈ rs) /\
  (forall c, exec_command st = Some c <-> last_exec rs c) /\
  (exec_command st = None <-> no_exec rs) /\
  (forall p, pty_params st = Some p <-> last_pty rs p) /\
  (pty_params st = None <-> no_pty rs) /\
  Forall (fun r => forall s, (handle_request s r).1 = true) rs.
Proof.
  cbv zeta. split; [|split; [|split; [|split; [|split]]]].
  - rewrite handle_requests_ready. simpl. split; [intros [H|H]; [done|exact H]|by right].
  - intros c. split.
    + destruct (handle_requests_exec_cases fresh_chan rs) as [[_ ->]|(c' & Hl & ->)]; [done|].
      by intros [= <-].
    + intros (rs1 & rs2 & -> & Hn). rewrite handle_requests_app.
      change (ReqExec c :: rs2) with ([ReqExec c] ++ rs2).
      rewrite handle_requests_app, handle_requests_no_exec by done. done.
  - destruct (handle_requests_exec_cases fresh_chan rs) as [[Hn ->]|(c' & (rs1 & rs2 & -> & _) & ->)].
    + done.
    + split; [done|]. intros Hn. exfalso. apply (Hn c'). set_solver.
  - intros p. split.
    + destruct (handle_requests_pty_cases fresh_chan rs) as [[_ ->]|(p' & Hl & ->)]; [done|].
      by intros [= <-].
    + intros (rs1 & rs2 & -> & Hn). rewrite handle_requests_app.
      change (ReqPty p :: rs2) with ([ReqPty p] ++ rs2).
      rewrite handle_requests_app, handle_requests_no_pty by done. done.
  - destruct (handle_requests_pty_cases fresh_chan rs) as [[Hn ->]|(p' & (rs1 & rs2 & -> & _) & ->)].
    + done.
    + split; [done|]. intros Hn. exfalso. apply (Hn p'). set_solver.
  - apply Forall_forall. intros [|c|p] _ s; done.
Qed.

(** X9: after any sequence of shell, exec and pty requests on a fresh
    session, the channel is ready exactly when a shell or an exec was
    requested; the recorded exec command and pty parameters are those
    of the last exec and the last pty request, and nothing is recorded
    when there was none.  Every request is accepted. *)
Theorem handle_requests_spec rs :
  let st := handle_requests fresh_chan rs in
  (channel_ready st = true <-> ReqShell ∈ rs \/ exists c, ReqExec c ∈ rs) /\
  (forall c, exec_command st = Some c <-> last_exec rs c) /\
  (exec_command st = None <-> no_exec rs) /\
  (forall p, pty_params st = Some p <-> last_pty rs p) /\
  (pty_params st = None <-> no_pty rs) /\
  Forall (fun r => forall s, (handle_request s r).1 = true) rs.
Proof. exact (handle_requests_spec_aux rs). Qed.

(** X10: the channel opened on the VM follows the attacker's requests:
    the last exec request, when its command is non-empty, runs that
    command (with a pty exactly when one was requested, the last one);
    otherwise (no exec, or an empty command) an interactive shell is
    opened with the last requested pty's terminal and size, or [xterm]
    80x24 with no pixel size when no pty was requested. *)
Theorem open_backend_channel_requests rs :
  let st := handle_requests fresh_chan rs in
  (forall c, last_exec rs c -> c <> "" ->
     exists pty, open_backend_channel st = ExecChan pty c /\
       (forall p, pty = Some p <-> last_pty rs p) /\ (pty = None <-> no_pty rs)) /\
  ((forall c, last_exec rs c -> c = "") ->
     (forall p, last_pty rs p ->
        open_backend_channel st = ShellChan (term p) (width p) (height p)
                                            (pixelwidth p) (pixelheight p)) /\
     (no_pty rs -> open_backend_channel st = ShellChan "xterm" 80 24 0 0)).
Proof.
  cbv zeta. pose proof (handle_requests_spec_aux rs) as (_ & Hex & Hexn & Hpt & Hptn & _).
  cbv zeta in *. unfold open_backend_channel. split.
  - intros c Hl Hne. apply Hex in Hl. rewrite Hl.
    unfold truthy. destruct (String.eqb c "") eqn:E.
    + apply String.eqb_eq in E. done.
    + simpl. eexists. split; [reflexivity|]. done.
  - intros Hempty.
    assert (Hsh : forall p, pty_params (handle_requests fresh_chan rs) = p ->
              open_backend_channel (handle_requests fresh_chan rs) =
              match p with
              | Some p => ShellChan (term p) (width p) (height p) (pixelwidth p) (pixelheight p)
              | None => ShellChan "xterm" 80 24 0 0
              end).
    { intros p Hp. unfold open_backend_channel. rewrite Hp.
      destruct (exec_command (handle_requests fresh_chan rs)) as [c|] eqn:Hc; [|done].
      assert (c = "") as -> by (apply Hempty, Hex; reflexivity). done. }
    unfold open_backend_channel in Hsh. split.
    + intros p Hl. apply Hpt in Hl. by rewrite (Hsh _ Hl).
    + intros Hn. apply Hptn in Hn. by rewrite (Hsh _ Hn).
Qed.

(* ================================================================== *)
(** ** The MAC address of a new VM *)

Definition lower_hex : list Ascii.ascii := String.list_ascii_of_string "0123456789abcdef".

Definition fmt02x_ok (n : N) : bool :=
  let x := hex_digit (n `div` 16)%N in
  let y := hex_digit (n `mod` 16)%N in
  N.eqb (hex_val x * 16 + hex_val y)%N n && bool_decide (x ∈ lower_hex) && bool_decide (y ∈ lower_hex).

Lemma fmt02x_ok_all : forallb (fun k => fmt02x_ok (N.of_nat k)) (seq 0 256) = true.
Proof. vm_compute. reflexivity. Qed.

Lemma fmt02x_spec n :
  (n < 256)%N ->
  exists x y, fmt02x n = String x (String y EmptyString) /\
    (hex_val x * 16 + hex_val y)%N = n /\ (x ∈ lower_hex) /\ (y ∈ lower_hex).
Proof.
  intros Hn. pose proof fmt02x_ok_all as H. rewrite forallb_forall in H.
  specialize (H (N.to_nat n)). rewrite N2Nat.id in H.
  assert (Hin : In (N.to_nat n) (seq 0 256)) by (apply in_seq; lia).
  specialize (H Hin). unfold fmt02x_ok in H.
  apply andb_prop in H as [H Hy]. apply andb_prop in H as [H Hx].
  apply N.eqb_eq in H. apply bool_decide_eq_true in Hx, Hy.
  exists (hex_digit (n `div` 16)%N), (hex_digit (n `mod` 16)%N). done.
Qed.

(** X11: for octets drawn from [randint(0, 255)], the MAC address is 17
    characters: the QEMU prefix [52:54:00:] and three pairs of lower-case
    hex digits separated by colons; it encodes the three octets, so
    different draws give different addresses. *)
Theorem mac_address_spec a b c :
  (a < 256)%N -> (b < 256)%N -> (c < 256)%N ->
  String.length (mac_address a b c) = 17%nat /\
  (exists x1 x2 y1 y2 z1 z2,
     String.list_ascii_of_string (mac_address a b c) =
       String.list_ascii_of_string "52:54:00:" ++
       [x1; x2; Ascii.ascii_of_N 58; y1; y2; Ascii.ascii_of_N 58; z1; z2] /\
     Forall (fun d => d ∈ lower_hex) [x1; x2; y1; y2; z1; z2]) /\
  parse_mac (mac_address a b c) = Some (a, b, c) /\
  (forall a' b' c', (a' < 256)%N -> (b' < 256)%N -> (c' < 256)%N ->
     mac_address a b c = mac_address a' b' c' -> a = a' /\ b = b' /\ c = c').
Proof.
  assert (Hp : forall a b c, (a < 256)%N -> (b < 256)%N -> (c < 256)%N ->
             parse_mac (mac_address a b c) = Some (a, b, c)).
  { intros a0 b0 c0 Ha Hb Hc.
    destruct (fmt02x_spec a0 Ha) as (x1 & x2 & Ea & Va & _).
    destruct (fmt02x_spec b0 Hb) as (y1 & y2 & Eb & Vb & _).
    destruct (fmt02x_spec c0 Hc) as (z1 & z2 & Ec & Vc & _).
    unfold mac_address. rewrite Ea, Eb, Ec, <- Va, <- Vb, <- Vc. reflexivity. }
  intros Ha Hb Hc.
  destruct (fmt02x_spec a Ha) as (x1 & x2 & Ea & Va & Hx1 & Hx2).
  destruct (fmt02x_spec b Hb) as (y1 & y2 & Eb & Vb & Hy1 & Hy2).
  destruct (fmt02x_spec c Hc) as (z1 & z2 & Ec & Vc & Hz1 & Hz2).
  split; [unfold mac_address; rewrite Ea, Eb, Ec; reflexivity|].
  split.
  { exists x1, x2, y1, y2, z1, z2. split.
    - unfold mac_address. rewrite Ea, Eb, Ec. reflexivity.
    - repeat (apply Forall_cons; split; [done|]). apply Forall_nil; done. }
  split; [by apply Hp|].
  intros a' b' c' Ha' Hb' Hc' E.
  pose proof (Hp a b c Ha Hb Hc) as P. rewrite E, (Hp a' b' c' Ha' Hb' Hc') in P.
  injection P as -> -> ->. done.
Qed.

Lemma mac_address_spec_witness :
  parse_mac (mac_address 18 171 255) = Some (18%N, 171%N, 255%N).
Proof.
  destruct (mac_address_spec 18 171 255 ltac:(lia) ltac:(lia) ltac:(lia)) as (_ & _ & H & _).
  exact H.
Defined.

(* ================================================================== *)
(** ** [load_host_key] *)

Lemma try_key_classes_key classes attempt k :
  try_key_classes classes attempt = HostKey k <->
  exists cs1 kc cs2, classes = cs1 ++ Some kc :: cs2 /\ attempt kc = Loaded k /\
    forall kc', Some kc' ∈ cs1 -> caught (attempt kc').
Proof.
  split.
  - induction classes as [|[kc|] rest IH]; simpl; [done| |].
    + destruct (attempt kc) as [k'| | |] eqn:Ha.
      * intros [= ->]. exists [], kc, rest. split; [done|]. split; [done|]. set_solver.
      * intros H. destruct (IH H) as (cs1 & kc0 & cs2 & -> & Hk & Hc).
        exists (Some kc :: cs1), kc0, cs2. split; [done|]. split; [done|].
        intros kc' Hin. apply elem_of_cons in Hin as [[= ->]|Hin]; [by left|by apply Hc].
      * intros H. destruct (IH H) as (cs1 & kc0 & cs2 & -> & Hk & Hc).
        exists (Some kc :: cs1), kc0, cs2. split; [done|]. split; [done|].
        intros kc' Hin. apply elem_of_cons in Hin as [[= ->]|Hin]; [by right|by apply Hc].
      * done.
    + intros H. destruct (IH H) as (cs1 & kc0 & cs2 & -> & Hk & Hc).
      exists (None :: cs1), kc0, cs2. split; [done|]. split; [done|].
      intros kc' Hin. apply elem_of_cons in Hin as [Hin|Hin]; [done|by apply Hc].
  - intros (cs1 & kc & cs2 & -> & Hk & Hc). induction cs1 as [|[kc'|] cs1 IH]; simpl.
    + by rewrite Hk.
    + destruct (Hc kc' ltac:(left)) as [-> | ->]; apply IH; intros kc'' Hin; apply Hc; by right.
    + apply IH. intros kc'' Hin. apply Hc. by right.
Qed.

Lemma try_key_classes_runtime classes attempt :
  try_key_classes classes attempt = RuntimeError_ <->
  forall kc, Some kc ∈ classes -> caught (attempt kc).
Proof.
  induction classes as [|[kc|] rest IH]; simpl.
  - split; [set_solver|done].
  - destruct (attempt kc) as [k'| | |] eqn:Ha.
    + split; [done|]. intros H. destruct (H kc ltac:(left)); congruence.
    + rewrite IH. split.
      * intros H kc' Hin. apply elem_of_cons in Hin as [[= ->]|Hin]; [by left|by apply H].
      * intros H kc' Hin. apply H. by right.
    + rewrite IH. split.
      * intros H kc' Hin. apply elem_of_cons in Hin as [[= ->]|Hin]; [by right|by apply H].
      * intros H kc' Hin. apply H. by right.
    + split; [done|]. intros H. destruct (H kc ltac:(left)); congruence.
  - rewrite IH. split.
    + intros H kc' Hin. apply elem_of_cons in Hin as [Hin|Hin]; [done|by apply H].
    + intros H kc' Hin. apply H. by right.
Qed.

(** X12: [load_host_key] raises [FileNotFoundError] when the key file is
    missing; otherwise it returns the key of the first class (RSA, then
    each of Ed25519, ECDSA and DSS that Paramiko provides) whose loader
    succeeds, provided every class tried before it failed with
    [SSHException] or [ValueError]; it raises [RuntimeError] exactly when
    every available class fails that way. *)
Theorem load_host_key_spec path_exists ed25519 ecdsa dss attempt :
  (path_exists = false -> load_host_key path_exists ed25519 ecdsa dss attempt = FileNotFoundError) /\
  (forall k, load_host_key path_exists ed25519 ecdsa dss attempt = HostKey k <->
     path_exists = true /\
     exists cs1 kc cs2, key_classes ed25519 ecdsa dss = cs1 ++ Some kc :: cs2 /\
       attempt kc = Loaded k /\ forall kc', Some kc' ∈ cs1 -> caught (attempt kc')) /\
  (load_host_key path_exists ed25519 ecdsa dss attempt = RuntimeError_ <->
     path_exists = true /\
     forall kc, Some kc ∈ key_classes ed25519 ecdsa dss -> caught (attempt kc)).
Proof.
  unfold load_host_key. split; [intros ->; done|]. split.
  - intros k. destruct path_exists.
    + rewrite try_key_classes_key. split; [by split|by intros [_ H]].
    + split; [done|by intros [? _]].
  - destruct path_exists.
    + rewrite try_key_classes_runtime. split; [by split|by intros [_ H]].
    + split; [done|by intros [? _]].
Qed.

(* ================================================================== *)
(** ** [append_log_line] *)

Lemma infix_cons_inv (sep : list Z) c r :
  is_infix sep (c :: r) -> (sep `prefix_of` (c :: r)) \/ (is_infix sep r).
Proof.
  intros [k1 [k2 E]]. destruct k1 as [|c' k1]; simpl in E.
  - left. exists k2. done.
  - right. injection E as -> E. exists k1, k2. done.
Qed.

Lemma find_sub_none sep l : find_sub sep l = None <-> ~ is_infix sep l.
Proof.
  induction l as [|c r IH]; simpl.
  - case_decide as Hp.
    + split; [done|]. intros Hn. exfalso. apply Hn. destruct Hp as [k Hk].
      exists [], k. done.
    + split; [|done]. intros _ [k1 [k2 E]]. apply Hp.
      destruct k1; [|done]. destruct sep; [|done]. apply prefix_nil.
  - case_decide as Hp.
    + split; [done|]. intros Hn. exfalso. apply Hn. destruct Hp as [k Hk].
      exists [], k. done.
    + destruct (find_sub sep r) as [[b a]|] eqn:E.
      * split; [done|]. intros Hn. exfalso.
        assert (Hr : ~ is_infix sep r).
        { intros Hi. apply Hn. destruct Hi as [k1 [k2 Ek]].
          exists (c :: k1), k2. simpl. by rewrite Ek. }
        apply IH in Hr. discriminate.
      * split; [|done]. intros _ Hi. apply infix_cons_inv in Hi as [Hi|Hi]; [done|].
        by apply (proj1 IH eq_refl).
Qed.

(** X13: [append_log_line] writes to the log file only for lines that
    contain ["RESP>"]; a line without it is printed as [[L] line] and the
    file is untouched.  A response is printed as [[L] x] and written as
    the line [x]: appended to the file, except that a response starting
    with ["Welcome to Ubuntu"] replaces the whole file. *)
Theorem append_log_line_file file line :
  (~ is_infix (cps "RESP>") line -> append_log_line file line = (file, cps "[L] " ++ line)) /\
  (is_infix (cps "RESP>") line ->
   exists x, (append_log_line file line).2 = cps "[L] " ++ x /\
     ((~ cps "Welcome to Ubuntu" `prefix_of` x /\ (append_log_line file line).1 = file ++ x ++ [10]) \/
      (cps "Welcome to Ubuntu" `prefix_of` x /\ (append_log_line file line).1 = x ++ [10]))).
Proof.
  unfold append_log_line, second_token. split.
  - intros Hn. apply find_sub_none in Hn. by rewrite Hn.
  - intros Hi. destruct (find_sub (cps "RESP>") line) as [[b a]|] eqn:E.
    + cbv zeta.
      set (x := if decide (cps "]0;" `prefix_of` strip_ansi_codes (py_strip _))
                then _ else _).
      exists x. case_decide as Hw.
      * split; [done|]. by right.
      * split; [done|]. by left.
    + apply find_sub_none in E. done.
Qed.

Lemma append_log_line_file_witness :
  append_log_line (cps "old") (cps "[10.0.0.5] CMD> ls") = (cps "old", cps "[L] [10.0.0.5] CMD> ls").
Proof.
  assert (Hn : ~ is_infix (cps "RESP>") (cps "[10.0.0.5] CMD> ls")).
  { apply find_sub_none. vm_compute. reflexivity. }
  exact (proj1 (append_log_line_file (cps "old") (cps "[10.0.0.5] CMD> ls")) Hn).
Defined.

(* ================================================================== *)
(** ** The pool: post-conditions and compositions *)

(** X14: [ensure_warm_vm] never changes the Hot sessions.  It changes the
    warm slot only when it was empty and the pool is below capacity, and
    only to the VM just booted ([trap_<run_id>] with its overlay disk and
    the IP the guest reported); that VM is then running and its disk
    exists. *)
Theorem ensure_warm_vm_post run_id o p e :
  let r := ensure_warm_vm run_id o p e in
  hot_vms r.1 = hot_vms p /\
  (warm_vm r.1 = warm_vm p \/
   (warm_vm p = None /\ (size (hot_vms p) < MAX_HOT_VMS)%nat /\
    exists g, o = Boots (Some g) /\
      warm_vm r.1 = Some (mkVm (trap_name run_id) g run_id (overlay_path run_id)) /\
      (trap_name run_id ∈ active r.2) /\ (overlay_path run_id ∈ disks r.2))).
Proof.
  cbv zeta. unfold ensure_warm_vm.
  case_decide as Hcap; [split; [done|by left]|].
  destruct (warm_vm p) as [w|] eqn:Hw; [split; [done|by left]|].
  destruct o as [fp|[g|]]; cbn [fst snd hot_vms warm_vm].
  - split; [done|by left].
  - split; [done|]. right. split; [done|]. split; [lia|].
    exists g. split; [done|]. split; [done|].
    unfold env_log, booted_effect; simpl. set_solver.
  - split; [done|by left].
Qed.

Lemma get_target_promote now cip p t p' :
  get_target_for_client now cip p = (Some t, p', true) ->
  exists w, warm_vm p = Some w /\ t = ip w /\ hot_vms p !! cip = None /\
    p' = mkPool None (<[cip := mkHot w now]> (hot_vms p)).
Proof.
  unfold get_target_for_client.
  destruct (hot_vms p !! cip) as [h|] eqn:Hl; [by intros [=]|].
  case_decide; [by intros [=]|].
  destruct (warm_vm p) as [w|] eqn:Hw; [|by intros [=]].
  intros [= <- <-]. by exists w.
Qed.

(** X15: when a new client is given the Warm VM (the call that spawns
    the refill task and returns an IP), the client's session holds that
    VM with [last_seen] the current time and the warm slot is empty; the
    refill task [ensure_warm_vm] then finds the pool at capacity
    ([MAX_HOT_VMS] is 1) and provisions nothing, whatever happens on the
    hypervisor. *)
Theorem promote_then_refill now cip p t p' :
  get_target_for_client now cip p = (Some t, p', true) ->
  (exists w, warm_vm p = Some w /\ t = ip w /\ warm_vm p' = None /\
     hot_vms p' !! cip = Some (mkHot w now)) /\
  forall run_id o e,
    ensure_warm_vm run_id o p' e =
    (p', env_log e "[X] Max capacity reached. Not creating new Warm VM.").
Proof.
  intros H. destruct (get_target_promote _ _ _ _ _ H) as (w & Hw & -> & Hl & ->).
  split.
  - exists w. split; [done|]. split; [done|]. split; [done|]. simpl. apply lookup_insert_eq.
  - intros run_id o e. unfold ensure_warm_vm. simpl.
    rewrite decide_True; [done|]. rewrite map_size_insert_None by done. unfold MAX_HOT_VMS. lia.
Qed.

Definition demo_warm_vm : vm_entry :=
  mkVm "trap_51c0ffee" "192.168.122.61" "51c0ffee" (overlay_path "51c0ffee").
Definition demo_pool_warm : pool := mkPool (Some demo_warm_vm) ∅.

Lemma promote_then_refill_witness :
  get_target_for_client 5000 "198.51.100.7" demo_pool_warm =
    (Some "192.168.122.61",
     mkPool None {[ "198.51.100.7" := mkHot demo_warm_vm 5000 ]}, true) /\
  ensure_warm_vm "77aa77aa" (Boots (Some "192.168.122.70"))
    (mkPool None {[ "198.51.100.7" := mkHot demo_warm_vm 5000 ]}) (mkEnv ∅ ∅ ∅ [] ∅) =
    (mkPool None {[ "198.51.100.7" := mkHot demo_warm_vm 5000 ]},
     env_log (mkEnv ∅ ∅ ∅ [] ∅) "[X] Max capacity reached. Not creating new Warm VM.").
Proof.
  assert (H : get_target_for_client 5000 "198.51.100.7" demo_pool_warm =
    (Some "192.168.122.61",
     mkPool None {[ "198.51.100.7" := mkHot demo_warm_vm 5000 ]}, true)) by reflexivity.
  split; [exact H|].
  exact (proj2 (promote_then_refill _ _ _ _ _ H) _ _ _).
Defined.

Lemma cleanup_vm_entry_defined d dsk e : defined (cleanup_vm_entry d dsk e) = defined e.
Proof. unfold cleanup_vm_entry. by repeat case_decide. Qed.

Lemma remove_sessions_defined ips hv e : defined (remove_sessions ips hv e).2 = defined e.
Proof.
  revert hv e; induction ips as [|cip rest IH]; intros hv e; simpl; [done|].
  destruct (hv !! cip); rewrite IH; [apply cleanup_vm_entry_defined|done].
Qed.

(** X16: no pool operation ever undefines a libvirt domain: the set of
    defined domains only grows.  [cleanup_vm_entry] calls [destroy()]
    but never [undefine()], so the [trap_<run_id>] domain of every
    cleaned-up VM stays defined. *)
Theorem pool_step_keeps_defined s s' :
  pool_step s s' -> defined s.2 ⊆ defined s'.2.
Proof.
  intros Hs. inversion Hs as [run_id o p e| now cip p e r p' sp _| now force p e]; subst; simpl.
  - unfold ensure_warm_vm.
    case_decide; [done|]. destruct (warm_vm p); [done|].
    destruct o as [fp|[g|]]; simpl.
    + destruct fp; simpl; set_solver.
    + set_solver.
    + rewrite cleanup_vm_entry_defined. simpl. set_solver.
  - done.
  - unfold cleanup_expired_sessions.
    pose proof (remove_sessions_defined (to_remove now force (hot_vms p)) (hot_vms p) e) as Hd.
    destruct (remove_sessions _ _ _). simpl in *. by rewrite Hd.
Qed.

Definition demo_env_hot : env :=
  mkEnv {[ overlay_path "51c0ffee" ]} {[ "trap_51c0ffee" ]} {[ "trap_51c0ffee" ]} [] ∅.
Definition demo_pool_hot2 : pool :=
  mkPool None {[ "198.51.100.7" := mkHot demo_warm_vm 5000 ]}.

Lemma pool_step_keeps_defined_witness :
  "trap_51c0ffee" ∈ defined (cleanup_expired_sessions 6000 true demo_pool_hot2 demo_env_hot).2.
Proof.
  assert (H : defined demo_env_hot ⊆
              defined (cleanup_expired_sessions 6000 true demo_pool_hot2 demo_env_hot).2)
    by exact (pool_step_keeps_defined (demo_pool_hot2, demo_env_hot) _
                (step_cleanup 6000 true demo_pool_hot2 demo_env_hot)).
  apply H. unfold demo_env_hot. simpl. set_solver.
Defined.

Lemma cleanup_vm_entry_keeps d dsk e x y :
  (x <> d -> x ∈ active e -> x ∈ active (cleanup_vm_entry d dsk e)) /\
  (y <> dsk -> y ∈ disks e -> y ∈ disks (cleanup_vm_entry d dsk e)).
Proof.
  unfold cleanup_vm_entry. split; intros Hne Hin; repeat case_decide; simpl; set_solver.
Qed.

Lemma remove_sessions_keeps ips hv e x y :
  (forall cip h, hv !! cip = Some h -> dom (vm h) <> x /\ disk (vm h) <> y) ->
  (x ∈ active e -> x ∈ active (remove_sessions ips hv e).2) /\
  (y ∈ disks e -> y ∈ disks (remove_sessions ips hv e).2).
Proof.
  revert hv e; induction ips as [|cip rest IH]; intros hv e Hall; simpl; [done|].
  destruct (hv !! cip) as [h|] eqn:Hl; [|by apply IH].
  destruct (Hall cip h Hl) as [Hx Hy].
  destruct (IH (delete cip hv) (cleanup_vm_entry (dom (vm h)) (disk (vm h)) e)) as [H1 H2].
  { intros c h' Hl'. apply lookup_delete_Some in Hl' as [_ Hl']. by apply (Hall c). }
  destruct (cleanup_vm_entry_keeps (dom (vm h)) (disk (vm h)) e x y) as [K1 K2].
  split; intros Hin; [apply H1, K1|apply H2, K2]; auto.
Qed.

(** X17: the forced cleanup run at shutdown ([cleanup_expired_sessions]
    with [force=True]) ends every Hot session but never touches the Warm
    VM: it stays in the warm slot, and, as long as no session shares its
    domain or disk, it keeps running and its disk is kept. *)
Theorem cleanup_force_keeps_warm now p e w :
  warm_vm p = Some w ->
  (forall cip h, hot_vms p !! cip = Some h -> dom (vm h) <> dom w /\ disk (vm h) <> disk w) ->
  let r := cleanup_expired_sessions now true p e in
  hot_vms r.1 = ∅ /\ warm_vm r.1 = Some w /\
  (dom w ∈ active e -> dom w ∈ active r.2) /\ (disk w ∈ disks e -> disk w ∈ disks r.2).
Proof.
  intros Hw Hdist. cbv zeta. unfold cleanup_expired_sessions.
  pose proof (remove_sessions_lookup (to_remove now true (hot_vms p)) (hot_vms p) e) as Hlk.
  pose proof (remove_sessions_keeps (to_remove now true (hot_vms p)) (hot_vms p) e
                (dom w) (disk w) Hdist) as [K1 K2].
  destruct (remove_sessions _ _ _) as [hv e'] eqn:Hr; simpl in *.
  split; [|split; [done|split; done]].
  apply map_empty. intros c. rewrite Hlk. case_decide as Hin; [done|].
  destruct (hot_vms p !! c) as [h|] eqn:Hc; [|done].
  exfalso. apply Hin. apply elem_of_to_remove. by exists h.
Qed.

Definition demo_pool_shutdown : pool :=
  mkPool (Some demo_warm_vm)
    {[ "203.0.113.20" := mkHot (mkVm "trap_0badcafe" "192.168.122.80" "0badcafe"
                                     (overlay_path "0badcafe")) 100 ]}.
Definition demo_env_shutdown : env :=
  mkEnv {[ overlay_path "51c0ffee"; overlay_path "0badcafe" ]}
        {[ "trap_51c0ffee"; "trap_0badcafe" ]} {[ "trap_51c0ffee"; "trap_0badcafe" ]} [] ∅.

Lemma cleanup_force_keeps_warm_witness :
  (hot_vms (cleanup_expired_sessions 9000 true demo_pool_shutdown demo_env_shutdown).1 = ∅) /\
  ("trap_51c0ffee" ∈ active (cleanup_expired_sessions 9000 true demo_pool_shutdown
                               demo_env_shutdown).2).
Proof.
  assert (Hd : forall cip h, hot_vms demo_pool_shutdown !! cip = Some h ->
                 dom (vm h) <> dom demo_warm_vm /\ disk (vm h) <> disk demo_warm_vm).
  { intros cip h Hl. unfold demo_pool_shutdown in Hl; cbn [hot_vms] in Hl. apply lookup_singleton_Some in Hl as [_ <-].
    simpl. split; [done|]. unfold overlay_path. done. }
  destruct (cleanup_force_keeps_warm 9000 demo_pool_shutdown demo_env_shutdown demo_warm_vm
              eq_refl Hd) as (H1 & _ & H3 & _).
  split; [exact H1|]. apply H3. unfold demo_env_shutdown. simpl. set_solver.
Defined.

(** X18: a client that reconnects to its Hot session keeps it through
    every non-forced cleanup that runs within [PERSISTENCE_MINUTES] of
    the reconnect: the session, with [last_seen] the reconnect time,
    is still there. *)
Theorem reconnect_survives_cleanup now now' cip p e h :
  hot_vms p !! cip = Some h -> now' - now <= persistence_window ->
  let p1 := (get_target_for_client now cip p).1.2 in
  hot_vms (cleanup_expired_sessions now' false p1 e).1 !! cip = Some (mkHot (vm h) now).
Proof.
  intros Hl Hwin. cbv zeta. unfold get_target_for_client. rewrite Hl. simpl.
  unfold cleanup_expired_sessions.
  set (hv := <[cip:=mkHot (vm h) now]> (hot_vms p)).
  pose proof (remove_sessions_lookup (to_remove now' false hv) hv e cip) as Hlk.
  destruct (remove_sessions _ _ _) as [hv' e'] eqn:Hr; simpl in *.
  rewrite Hlk. rewrite decide_False; [apply lookup_insert_eq|].
  rewrite elem_of_to_remove. intros (h' & Hl' & Hx).
  unfold hv in Hl'. rewrite lookup_insert_eq in Hl'. injection Hl' as <-.
  simpl in Hx. unfold expired in Hx. apply bool_decide_eq_true in Hx. simpl in Hx. lia.
Qed.

Lemma reconnect_survives_cleanup_witness :
  hot_vms (cleanup_expired_sessions (5000 + persistence_window) false
             (get_target_for_client 5000 "198.51.100.7" demo_pool_hot2).1.2 demo_env_hot).1
    !! "198.51.100.7" = Some (mkHot demo_warm_vm 5000).
Proof.
  exact (reconnect_survives_cleanup 5000 (5000 + persistence_window) "198.51.100.7"
           demo_pool_hot2 demo_env_hot (mkHot demo_warm_vm 5000)
           ltac:(reflexivity) ltac:(lia)).
Defined.

(* ================================================================== *)
(** ** [relay_channels] *)

Lemma send_loop_ok fuel (f : sender) k view :
  (forall k v, v <> [] -> f k v <> Some O) -> (send_loop fuel f k view).1.1 = SendOk.
Proof.
  intros Hf. revert k view. induction fuel as [|fuel IH]; intros k view; simpl.
  - by destruct view.
  - destruct view as [|b bs] eqn:Hv; [done|].
    destruct (f k (b :: bs)) as [[|n]|] eqn:Hn; [by apply Hf in Hn| |done].
    specialize (IH (S k) (drop (S n) (b :: bs))).
    destruct (send_loop fuel f (S k) (drop (S n) (b :: bs))) as [[r d] calls].
    simpl in *. done.
Qed.

Lemma forward_live (f : sender) d :
  (forall k v, v <> [] -> f k v <> Some O) -> forward f d = (true, d).
Proof.
  intros Hf. unfold forward, send_all. destruct d as [|b bs]; [done|].
  pose proof (send_loop_ok (length (b :: bs)) f O (b :: bs) Hf) as Hok.
  pose proof (send_loop_sound (length (b :: bs)) f O (b :: bs) (le_n _)) as Hs.
  destruct (send_loop _ f O (b :: bs)) as [[r d] calls]. simpl in Hok. subst r.
  destruct Hs as (_ & Hd & _). by rewrite (Hd eq_refl).
Qed.

Lemma relay_block_live data eof feed f put st :
  data <> Some [] -> (forall k v, v <> [] -> f k v <> Some O) ->
  relay_block data eof feed f put st =
  (match data with
   | None => st
   | Some d => put (mkRelay (feed (logger st) d) (to_backend st) (to_attacker st)
                            (to_attacker_err st)) d
   end,
   match data with None => false | Some _ => true end, None).
Proof.
  intros Hd Hf. unfold relay_block. destruct data as [[|b bs]|]; [done| |done].
  by rewrite forward_live.
Qed.

Section RelayProofs.
Variable decode : list Byte.byte -> list Z.
Variable isprintable : Z -> bool.
Variable strip_ansi : list Z -> list Z.
Variables send_backend send_attacker send_attacker_stderr : nat -> sender.

Lemma relay_iter_quiet n t st :
  quiet_tick t -> live_sender send_backend -> live_sender send_attacker ->
  live_sender send_attacker_stderr ->
  exists st', relay_iter decode isprintable strip_ansi send_backend send_attacker
                send_attacker_stderr n t st = (st', None) /\
    to_backend st' = to_backend st ++ default [] (a_data t) /\
    to_attacker st' = to_attacker st ++ default [] (b_data t) /\
    to_attacker_err st' = to_attacker_err st ++ default [] (e_data t).
Proof.
  intros (Ha & Hb & He & Hac & Hbc & Hx) Hsb Hsa Hse. unfold relay_iter.
  rewrite relay_block_live by (done || apply Hsb). cbv beta iota.
  rewrite relay_block_live by (done || apply Hsa). cbv beta iota.
  rewrite relay_block_live by (done || apply Hse). cbv beta iota.
  rewrite Hac, Hbc.
  destruct (a_data t) as [da|], (b_data t) as [db|], (e_data t) as [de|];
    cbn [orb put_backend put_attacker put_attacker_err to_backend to_attacker
         to_attacker_err logger default];
    try (eexists; split; [reflexivity|]; rewrite ?app_nil_r; done).
  destruct (Hx (conj eq_refl (conj eq_refl eq_refl))) as [-> ->].
  eexists; split; [reflexivity|]. rewrite !app_nil_r. done.
Qed.

Lemma relay_loop_quiet n ticks st :
  Forall quiet_tick ticks -> live_sender send_backend -> live_sender send_attacker ->
  live_sender send_attacker_stderr ->
  exists st', relay_loop decode isprintable strip_ansi send_backend send_attacker
                send_attacker_stderr n ticks st = (st', None) /\
    to_backend st' = to_backend st ++ offered a_data ticks /\
    to_attacker st' = to_attacker st ++ offered b_data ticks /\
    to_attacker_err st' = to_attacker_err st ++ offered e_data ticks.
Proof.
  intros Hq Hsb Hsa Hse. revert n st.
  induction Hq as [|t ts Ht _ IH]; intros n st.
  - exists st. rewrite !app_nil_r. done.
  - simpl. destruct (relay_iter_quiet n t st Ht Hsb Hsa Hse) as (st1 & -> & H1 & H2 & H3).
    destruct (IH (S n) st1) as (st2 & -> & H4 & H5 & H6).
    exists st2. split; [done|].
    rewrite H4, H5, H6, H1, H2, H3, <- !app_assoc. done.
Qed.

Lemma relay_loop_app n ts1 ts2 st :
  relay_loop decode isprintable strip_ansi send_backend send_attacker send_attacker_stderr
    n (ts1 ++ ts2) st =
  match relay_loop decode isprintable strip_ansi send_backend send_attacker
          send_attacker_stderr n ts1 st with
  | (st', Some r) => (st', Some r)
  | (st', None) => relay_loop decode isprintable strip_ansi send_backend send_attacker
                     send_attacker_stderr (n + length ts1) ts2 st'
  end.
Proof.
  revert n st. induction ts1 as [|t ts IH]; intros n st; simpl.
  - by rewrite Nat.add_0_r.
  - destruct (relay_iter _ _ _ _ _ _ n t st) as [st' [r|]]; [done|].
    rewrite IH. by replace (S n + length ts)%nat with (n + S (length ts))%nat by lia.
Qed.

(** X19: while no channel reaches EOF or is closed, and the send
    primitives never report a closed channel, the relay keeps running
    and delivers exactly the bytes read, in order: the attacker's input
    to the VM, the VM's stdout to the attacker's stdout and its stderr to
    the attacker's stderr.  An exit status only stops the loop in an
    iteration that moved no data, so output that arrives together with
    the exit status is still forwarded. *)
Theorem relay_channels_forwards ticks lg :
  Forall quiet_tick ticks -> live_sender send_backend -> live_sender send_attacker ->
  live_sender send_attacker_stderr ->
  let r := relay_channels decode isprintable strip_ansi send_backend send_attacker
             send_attacker_stderr ticks lg in
  r.2 = None /\ to_backend r.1 = offered a_data ticks /\
  to_attacker r.1 = offered b_data ticks /\ to_attacker_err r.1 = offered e_data ticks.
Proof.
  intros Hq Hsb Hsa Hse. cbv zeta. unfold relay_channels.
  destruct (relay_loop_quiet O ticks (mkRelay lg [] [] []) Hq Hsb Hsa Hse)
    as (st' & -> & H1 & H2 & H3).
  simpl in *. done.
Qed.

(** X20: the iteration in which the attacker's [recv] returns EOF ends
    the relay before the VM's channels are read again: what the VM
    offers in that iteration or later is never forwarded, everything read
    in earlier iterations was, and the logger is flushed (no pending
    keystrokes or stored response lines remain). *)
Theorem relay_channels_attacker_eof ticks1 t ticks2 lg :
  Forall quiet_tick ticks1 -> live_sender send_backend -> live_sender send_attacker ->
  live_sender send_attacker_stderr -> a_data t = Some [] ->
  let r := relay_channels decode isprintable strip_ansi send_backend send_attacker
             send_attacker_stderr (ticks1 ++ t :: ticks2) lg in
  r.2 = Some AttackerEOF /\ to_backend r.1 = offered a_data ticks1 /\
  to_attacker r.1 = offered b_data ticks1 /\ to_attacker_err r.1 = offered e_data ticks1 /\
  buffer (logger r.1) = [] /\ response_lines (logger r.1) = [].
Proof.
  intros Hq Hsb Hsa Hse Ha. cbv zeta. unfold relay_channels.
  rewrite relay_loop_app.
  destruct (relay_loop_quiet O ticks1 (mkRelay lg [] [] []) Hq Hsb Hsa Hse)
    as (st' & -> & H1 & H2 & H3).
  assert (Hi : relay_iter decode isprintable strip_ansi send_backend send_attacker
                 send_attacker_stderr (length ticks1) t st' = (st', Some AttackerEOF))
    by (unfold relay_iter, relay_block; rewrite Ha; reflexivity).
  simpl. rewrite Hi. simpl in H1, H2, H3.
  pose proof (logger_flush_spec_aux strip_ansi (logger st')) as (F1 & F2 & _).
  done.
Qed.
End RelayProofs.

Lemma relay_channels_forwards_witness :
  let ticks := [mkTick (Some [Byte.x6c; Byte.x73]) (Some [Byte.x24]) None false false None None;
                mkTick None (Some [Byte.x6f; Byte.x6b]) (Some [Byte.x21]) false false None (Some 0)] in
  let r := relay_channels (fun bs => map (fun b => Z.of_N (Byte.to_N b)) bs) (fun _ => true)
             strip_ansi_codes (fun _ _ _ => Some 1%nat) (fun _ _ _ => Some 1%nat)
             (fun _ _ _ => Some 1%nat) ticks fresh_logger in
  r.2 = None /\ to_backend r.1 = [Byte.x6c; Byte.x73] /\
  to_attacker r.1 = [Byte.x24; Byte.x6f; Byte.x6b] /\ to_attacker_err r.1 = [Byte.x21].
Proof.
  cbv zeta.
  apply (relay_channels_forwards (fun bs => map (fun b => Z.of_N (Byte.to_N b)) bs)
           (fun _ => true) strip_ansi_codes (fun _ _ _ => Some 1%nat) (fun _ _ _ => Some 1%nat)
           (fun _ _ _ => Some 1%nat)).
  - unfold quiet_tick; repeat (apply Forall_cons; split;
      [simpl; repeat split; try discriminate;
       match goal with H : _ /\ _ |- _ => destruct H as (? & ? & ?); discriminate end|]).
    constructor.
  - intros n k v _; discriminate.
  - intros n k v _; discriminate.
  - intros n k v _; discriminate.
Defined.

Lemma relay_channels_attacker_eof_witness :
  let ticks1 := [mkTick (Some [Byte.x6c; Byte.x73]) (Some [Byte.x24]) None false false None None] in
  let t := mkTick (Some []) (Some [Byte.x6f; Byte.x6b]) None false false None None in
  let ticks2 := [mkTick None (Some [Byte.x21]) None false false None None] in
  let r := relay_channels (fun bs => map (fun b => Z.of_N (Byte.to_N b)) bs) (fun _ => true)
             strip_ansi_codes (fun _ _ _ => Some 1%nat) (fun _ _ _ => Some 1%nat)
             (fun _ _ _ => Some 1%nat) (ticks1 ++ t :: ticks2) fresh_logger in
  r.2 = Some AttackerEOF /\ to_backend r.1 = [Byte.x6c; Byte.x73] /\
  to_attacker r.1 = [Byte.x24] /\ to_attacker_err r.1 = [] /\
  buffer (logger r.1) = [] /\ response_lines (logger r.1) = [].
Proof.
  cbv zeta.
  apply (relay_channels_attacker_eof (fun bs => map (fun b => Z.of_N (Byte.to_N b)) bs)
           (fun _ => true) strip_ansi_codes (fun _ _ _ => Some 1%nat) (fun _ _ _ => Some 1%nat)
           (fun _ _ _ => Some 1%nat)).
  - unfold quiet_tick; repeat (apply Forall_cons; split;
      [simpl; repeat split; try discriminate;
       match goal with H : _ /\ _ |- _ => destruct H as (? & ? & ?); discriminate end|]).
    constructor.
  - intros n k v _; discriminate.
  - intros n k v _; discriminate.
  - intros n k v _; discriminate.
  - reflexivity.
Defined.
